(** * SEC filing extractor: a shallow embedding of the extraction pipeline

    The three converters of [sec_filing_extractor/extractors] are embedded
    as Rocq functions:

    - [TableExtractor]     : [SimpleTableParser] and the table filter of
                             [TableExtractor.extract];
    - [FinancialExtractor] : [FinancialStatementExtractor] over decoded
                             JSON values, with Python's exceptions kept as
                             an error result;
    - [SectionExtractor]   : [SectionExtractor._html_to_text],
                             [_find_sections] and [extract].

    Strings are Python [str] values seen through their UTF-8 bytes
    ([String.string]); byte-wise lexicographic order on UTF-8 coincides
    with Python's code-point order on [str]. *)

From Stdlib Require Import ZArith Lia Bool Ascii String.
From stdpp Require Import base option list strings sorting pretty.

Set Warnings "-register-all".

Local Open Scope string_scope.
Local Open Scope list_scope.
Local Open Scope Z_scope.

(** ** Character helpers shared by the converters *)

Module Chars.

(** [str.lower] / [str.upper] restricted to the ASCII letters, which is
    all the comparisons against ASCII tag names and item labels need. *)
Definition lower_ascii (c : ascii) : ascii :=
  let n := nat_of_ascii c in
  if ((65 <=? n) && (n <=? 90))%nat then ascii_of_nat (n + 32) else c.

Definition upper_ascii (c : ascii) : ascii :=
  let n := nat_of_ascii c in
  if ((97 <=? n) && (n <=? 122))%nat then ascii_of_nat (n - 32) else c.

Fixpoint lower (s : string) : string :=
  match s with
  | EmptyString => EmptyString
  | String c r => String (lower_ascii c) (lower r)
  end.

Fixpoint upper (s : string) : string :=
  match s with
  | EmptyString => EmptyString
  | String c r => String (upper_ascii c) (upper r)
  end.

(** [\s] and [str.isspace] on a character below U+0080: TAB, LF, VT,
    FF, CR, FS, GS, RS, US and SPACE.  It is used where a text is known
    to hold no other character. *)
Definition isspace_ascii (c : ascii) : bool :=
  let n := nat_of_ascii c in
  (((9 <=? n) && (n <=? 13)) || ((28 <=? n) && (n <=? 32)))%nat.

Definition isdigit (c : ascii) : bool :=
  let n := nat_of_ascii c in ((48 <=? n) && (n <=? 57))%nat.

Definition isalpha_lower (c : ascii) : bool :=
  let n := nat_of_ascii c in ((97 <=? n) && (n <=? 122))%nat.

(** A text is kept as the bytes of its UTF-8 encoding.  [is_ascii s]:
    every character of [s] is below U+0080. *)
Definition is_ascii_char (c : ascii) : bool := (nat_of_ascii c <? 128)%nat.

Fixpoint is_ascii (s : string) : bool :=
  match s with
  | EmptyString => true
  | String c r => is_ascii_char c && is_ascii r
  end.

(** A byte [10xxxxxx] continues the character begun before it. *)
Definition is_continuation (c : ascii) : bool :=
  let n := nat_of_ascii c in ((128 <=? n) && (n <=? 191))%nat.

(** The characters of a text in order, each as the bytes that encode
    it: a byte that is not a continuation byte begins a character. *)
Definition head_continues (s : string) : bool :=
  match s with
  | EmptyString => false
  | String c _ => is_continuation c
  end.

Fixpoint characters (s : string) : list string :=
  match s with
  | EmptyString => []
  | String c r =>
      match characters r with
      | [] => [String c EmptyString]
      | ch :: rest =>
          if head_continues r then String c ch :: rest
          else String c EmptyString :: ch :: rest
      end
  end.

(** ["".join(l)] *)
Fixpoint join (l : list string) : string :=
  match l with
  | [] => EmptyString
  | x :: r => x +:+ join r
  end.

(** The white space of Python, which [\s] matches in a [str] pattern
    and [str.strip] removes: below U+0080 the characters of
    [isspace_ascii]; above, U+0085 and U+00A0 (C2 85, C2 A0), U+1680
    (E1 9A 80), U+2000 to U+200A, U+2028, U+2029 and U+202F (E2 80 80 to
    E2 80 8A, E2 80 A8, E2 80 A9, E2 80 AF), U+205F (E2 81 9F) and
    U+3000 (E3 80 80). *)
Definition isspace (ch : string) : bool :=
  match map nat_of_ascii (list_ascii_of_string ch) with
  | [n] => (((9 <=? n) && (n <=? 13)) || ((28 <=? n) && (n <=? 32)))%nat
  | [a; b] => ((a =? 194) && ((b =? 133) || (b =? 160)))%nat
  | [a; b; c] =>
      (((a =? 225) && (b =? 154) && (c =? 128)) ||
       ((a =? 226) && (b =? 128) &&
        (((128 <=? c) && (c <=? 138)) || (c =? 168) || (c =? 169) ||
         (c =? 175))) ||
       ((a =? 226) && (b =? 129) && (c =? 159)) ||
       ((a =? 227) && (b =? 128) && (c =? 128)))%nat
  | _ => false
  end.

(** [s.lstrip()], [s.rstrip()] and [s.strip()], on the characters and
    on the text. *)
Fixpoint lstrip_chars (l : list string) : list string :=
  match l with
  | [] => []
  | ch :: r => if isspace ch then lstrip_chars r else l
  end.

Fixpoint rstrip_chars (l : list string) : list string :=
  match l with
  | [] => []
  | ch :: r =>
      match rstrip_chars r with
      | [] => if isspace ch then [] else [ch]
      | r' => ch :: r'
      end
  end.

Definition lstrip (s : string) : string := join (lstrip_chars (characters s)).

Definition rstrip (s : string) : string := join (rstrip_chars (characters s)).

Definition strip (s : string) : string :=
  join (rstrip_chars (lstrip_chars (characters s))).

(** [re.sub(r"\s+", " ", s)]: every maximal run of white space becomes
    one space. *)
Fixpoint collapse (in_run : bool) (l : list string) : list string :=
  match l with
  | [] => []
  | ch :: r =>
      if isspace ch
      then if in_run then collapse true r else " " :: collapse true r
      else ch :: collapse false r
  end.

Definition collapse_spaces (s : string) : string :=
  join (collapse false (characters s)).

(** [collapsed prev l]: the only white space among the characters [l]
    is the space character, never twice in a row ([prev] tells whether
    a space comes just before [l]). *)
Fixpoint collapsed (prev : bool) (l : list string) : bool :=
  match l with
  | [] => true
  | ch :: r =>
      if isspace ch
      then String.eqb ch " " && negb prev && collapsed true r
      else collapsed false r
  end.

(** The shape of the pieces [characters] cuts a text into: a piece is
    one byte followed by continuation bytes only, and every piece after
    the first begins with a byte that is not a continuation byte. *)
Definition one_character (ch : string) : bool :=
  match ch with
  | EmptyString => false
  | String _ t => forallb is_continuation (list_ascii_of_string t)
  end.

Definition begins_character (ch : string) : bool :=
  match ch with
  | EmptyString => false
  | String c _ => negb (is_continuation c)
  end.

Definition cut (l : list string) : Prop :=
  Forall (fun ch => one_character ch = true) l /\
  Forall (fun ch => begins_character ch = true) (tail l).

End Chars.

(** ** Table extraction ([extractors/table_extractor.py]) *)

Module TableExtractor.

Definition row := list string.
Definition table := list row.

(** The callbacks [HTMLParser.feed] issues, in document order.  The
    tokenizer itself belongs to the standard library; the parser class
    only defines the three handlers below. *)
Inductive event : Type :=
| StartTag (tag : string) (attrs : list (string * option string))
| EndTag (tag : string)
| Data (data : string).

(** The attributes of [SimpleTableParser].  [_in_table_depth] is a
    Python [int] that is only decremented under the guard [> 0], hence a
    natural number. *)
Record parser : Type := mkParser {
  tables : list table;
  _in_table_depth : nat;
  _current_table : option table;
  _current_row : option row;
  _in_cell : bool;
  _cell_buffer : list string
}.

(** [SimpleTableParser.__init__] *)
Definition init : parser :=
  {| tables := []; _in_table_depth := 0; _current_table := None;
     _current_row := None; _in_cell := false; _cell_buffer := [] |}.

(** [SimpleTableParser._clean_text] *)
Definition _clean_text (text : string) : string :=
  Chars.strip (Chars.collapse_spaces text).

Definition is_cell_tag (t : string) : bool :=
  String.eqb t "td" || String.eqb t "th".

(** [SimpleTableParser.handle_starttag] *)
Definition handle_starttag (self : parser) (tag : string)
    (attrs : list (string * option string)) : parser :=
  let tag_lower := Chars.lower tag in
  if String.eqb tag_lower "table" then
    let cur := match _in_table_depth self with
               | O => Some []
               | S _ => _current_table self
               end in
    {| tables := tables self;
       _in_table_depth := S (_in_table_depth self);
       _current_table := cur;
       _current_row := _current_row self;
       _in_cell := _in_cell self;
       _cell_buffer := _cell_buffer self |}
  else
    match _in_table_depth self with
    | O => self
    | S _ =>
        if String.eqb tag_lower "tr" then
          {| tables := tables self;
             _in_table_depth := _in_table_depth self;
             _current_table := _current_table self;
             _current_row := Some [];
             _in_cell := _in_cell self;
             _cell_buffer := _cell_buffer self |}
        else if is_cell_tag tag_lower then
          {| tables := tables self;
             _in_table_depth := _in_table_depth self;
             _current_table := _current_table self;
             _current_row := _current_row self;
             _in_cell := true;
             _cell_buffer := [] |}
        else self
    end.

(** [SimpleTableParser.handle_endtag] *)
Definition handle_endtag (self : parser) (tag : string) : parser :=
  let tag_lower := Chars.lower tag in
  if String.eqb tag_lower "table" then
    match _in_table_depth self with
    | O => self
    | S d =>
        match d, _current_table self with
        | O, Some t =>
            {| tables := tables self ++ [t];
               _in_table_depth := d;
               _current_table := None;
               _current_row := _current_row self;
               _in_cell := _in_cell self;
               _cell_buffer := _cell_buffer self |}
        | _, _ =>
            {| tables := tables self;
               _in_table_depth := d;
               _current_table := _current_table self;
               _current_row := _current_row self;
               _in_cell := _in_cell self;
               _cell_buffer := _cell_buffer self |}
        end
    end
  else
    match _in_table_depth self with
    | O => self
    | S _ =>
        if is_cell_tag tag_lower then
          let row' :=
            if _in_cell self then
              let text := _clean_text (String.concat "" (_cell_buffer self)) in
              match _current_row self with
              | Some r => Some (r ++ [text])
              | None => None
              end
            else _current_row self in
          {| tables := tables self;
             _in_table_depth := _in_table_depth self;
             _current_table := _current_table self;
             _current_row := row';
             _in_cell := false;
             _cell_buffer := [] |}
        else if String.eqb tag_lower "tr" then
          let table' :=
            match _current_row self, _current_table self with
            | Some r, Some t => Some (t ++ [r])
            | _, _ => _current_table self
            end in
          {| tables := tables self;
             _in_table_depth := _in_table_depth self;
             _current_table := table';
             _current_row := None;
             _in_cell := _in_cell self;
             _cell_buffer := _cell_buffer self |}
        else self
    end.

(** [SimpleTableParser.handle_data] *)
Definition handle_data (self : parser) (data : string) : parser :=
  match _in_table_depth self with
  | O => self
  | S _ =>
      if _in_cell self then
        {| tables := tables self;
           _in_table_depth := _in_table_depth self;
           _current_table := _current_table self;
           _current_row := _current_row self;
           _in_cell := _in_cell self;
           _cell_buffer := _cell_buffer self ++ [data] |}
      else self
  end.

Definition dispatch (self : parser) (e : event) : parser :=
  match e with
  | StartTag tag attrs => handle_starttag self tag attrs
  | EndTag tag => handle_endtag self tag
  | Data data => handle_data self data
  end.

(** [parser.feed(html)], as the sequence of callbacks it makes. *)
Definition feed (self : parser) (events : list event) : parser :=
  fold_left dispatch events self.

(** [parser = SimpleTableParser(); parser.feed(...); parser.tables] *)
Definition parse (events : list event) : list table :=
  tables (feed init events).

(** [max((len(row) for row in table if isinstance(row, list)), default=0)];
    every row the parser builds is a list. *)
Definition max_cols (t : table) : Z :=
  fold_right (fun r acc => Z.max (Z.of_nat (length r)) acc) 0 t.

(** The filter loop of [TableExtractor.extract], lines 145-153, with
    [filtered] the list accumulated so far. *)
Fixpoint filter_tables (parsed : list table) (min_columns max_tables : Z)
    (filtered : list table) : list table :=
  match parsed with
  | [] => filtered
  | t :: rest =>
      let filtered :=
        if max_cols t >=? min_columns then filtered ++ [t] else filtered in
      if Z.of_nat (length filtered) >=? max_tables then filtered
      else filter_tables rest min_columns max_tables filtered
  end.

Definition filtered_tables (parsed : list table) (min_columns max_tables : Z)
    : list table :=
  filter_tables parsed min_columns max_tables [].

(** *** Vocabulary for the statements about the parser *)

(** The parser [p] moved to depth [d], nothing else changed. *)
Definition set_depth (d : nat) (p : parser) : parser :=
  {| tables := tables p; _in_table_depth := d;
     _current_table := _current_table p; _current_row := _current_row p;
     _in_cell := _in_cell p; _cell_buffer := _cell_buffer p |}.

Definition is_table_start (e : event) : bool :=
  match e with
  | StartTag tag _ => String.eqb (Chars.lower tag) "table"
  | _ => false
  end.

Definition is_table_end (e : event) : bool :=
  match e with
  | EndTag tag => String.eqb (Chars.lower tag) "table"
  | _ => false
  end.

(** The event stream without the open and close tags of nested tables:
    everything else, at any depth, is kept. *)
Fixpoint erase_nested_tags (depth : nat) (events : list event) : list event :=
  match events with
  | [] => []
  | e :: rest =>
      if is_table_start e then
        match depth with
        | O => e :: erase_nested_tags 1 rest
        | S _ => erase_nested_tags (S depth) rest
        end
      else if is_table_end e then
        match depth with
        | O => e :: erase_nested_tags 0 rest
        | S O => e :: erase_nested_tags 0 rest
        | S (S d) => erase_nested_tags (S d) rest
        end
      else e :: erase_nested_tags depth rest
  end.

(** The event stream without anything that occurs at depth 2 or more:
    what the parser would see if nested tables were ignored. *)
Fixpoint drop_nested_content (depth : nat) (events : list event) : list event :=
  match events with
  | [] => []
  | e :: rest =>
      if is_table_start e then
        match depth with
        | O => e :: drop_nested_content 1 rest
        | S _ => drop_nested_content (S depth) rest
        end
      else if is_table_end e then
        match depth with
        | O => e :: drop_nested_content 0 rest
        | S O => e :: drop_nested_content 0 rest
        | S (S d) => drop_nested_content (S d) rest
        end
      else
        match depth with
        | S (S _) => drop_nested_content depth rest
        | _ => e :: drop_nested_content depth rest
        end
  end.

(** Reading of "nested content is ignored": the output is the one of the
    stream with the nested tables cut out. *)
Definition nested_content_ignored (events : list event) : Prop :=
  parse events = parse (drop_nested_content 0 events).


(** A table whose first row holds [A] and whose second row holds a cell
    with a nested one-cell table [Y]. *)
Definition nested_example : list event :=
  [ StartTag "table" []; StartTag "tr" []; StartTag "td" []; Data "A";
    EndTag "td"; EndTag "tr";
    StartTag "tr" []; StartTag "td" [];
      StartTag "table" []; StartTag "tr" []; StartTag "td" []; Data "Y";
      EndTag "td"; EndTag "tr"; EndTag "table";
    EndTag "td"; EndTag "tr"; EndTag "table" ].

(** What the table filter is documented to compute: the first
    [max_tables] tables that are at least [min_columns] wide. *)
Definition wide_enough (min_columns : Z) (t : table) : bool :=
  max_cols t >=? min_columns.

Definition first_qualifying (parsed : list table) (min_columns max_tables : Z)
    : list table :=
  take (Z.to_nat max_tables) (List.filter (wide_enough min_columns) parsed).

(** *** Markup written table by table

    The callbacks of a table element written out in full: one [tr]
    element per row, one [td] element per cell, the cell text in one
    piece. *)
Definition cell_events (c : string) : list event :=
  [StartTag "td" []; Data c; EndTag "td"].

Definition open_row_events (r : row) : list event :=
  StartTag "tr" [] :: concat (map cell_events r).

Definition row_events (r : row) : list event :=
  open_row_events r ++ [EndTag "tr"].

Definition table_events (t : table) : list event :=
  StartTag "table" [] :: concat (map row_events t) ++ [EndTag "table"].

(** The cells as the parser stores them. *)
Definition cleaned (t : table) : table := map (map _clean_text) t.

(** A table written with its rows [rs] and then a [tr] tag and the
    cells [r] that no [/tr] tag follows before the table closes. *)
Definition unterminated_table_events (rs : table) (r : row) : list event :=
  StartTag "table" [] :: concat (map row_events rs)
    ++ open_row_events r ++ [EndTag "table"].

(** The table being accumulated is there exactly inside a table. *)
Definition consistent (p : parser) : Prop :=
  _in_table_depth p = 0%nat <-> _current_table p = None.

End TableExtractor.

(** ** Python values and the operations the financial extractor uses *)

Module Py.

(** Values as [json.load] builds them.  JSON numbers are kept as
    integers: the extractor tests them for truth and copies them, and
    does no arithmetic. *)
Inductive value : Type :=
| PNone
| PBool (b : bool)
| PInt (n : Z)
| PStr (s : string)
| PList (l : list value)
| PDict (d : list (string * value)).

Inductive exn : Type :=
| TypeError
| AttributeError
| KeyError
| OSError
| ExtractionError.

Inductive result (A : Type) : Type :=
| Ok (a : A)
| Raise (e : exn).
Arguments Ok {A} a.
Arguments Raise {A} e.

Global Instance result_ret : MRet result := fun A a => Ok a.
Global Instance result_bind : MBind result := fun A B f m =>
  match m with
  | Ok a => f a
  | Raise e => Raise e
  end.

(** [try: ... except Exception as e: raise ExtractionError(...) from e] *)
Definition reraise_as_extraction_error {A} (m : result A) : result A :=
  match m with
  | Ok a => Ok a
  | Raise _ => Raise ExtractionError
  end.

(** [bool(v)] *)
Definition truthy (v : value) : bool :=
  match v with
  | PNone => false
  | PBool b => b
  | PInt n => negb (n =? 0)
  | PStr s => negb (String.eqb s "")
  | PList l => match l with [] => false | _ => true end
  | PDict d => match d with [] => false | _ => true end
  end.

(** [a or b] *)
Definition or_ (a b : value) : value := if truthy a then a else b.

(** Lists and dicts cannot be dict keys or set members. *)
Definition hashable (v : value) : bool :=
  match v with
  | PList _ | PDict _ => false
  | _ => true
  end.

Fixpoint assoc {A} (k : string) (d : list (string * A)) : option A :=
  match d with
  | [] => None
  | (k', v) :: r => if String.eqb k' k then Some v else assoc k r
  end.

(** [a == b]; [True == 1] and [False == 0] as in Python, dicts compared
    regardless of order. *)
Fixpoint eq (a b : value) {struct a} : bool :=
  match a, b with
  | PNone, PNone => true
  | PBool x, PBool y => Bool.eqb x y
  | PBool x, PInt y => Z.b2z x =? y
  | PInt x, PBool y => x =? Z.b2z y
  | PInt x, PInt y => x =? y
  | PStr x, PStr y => String.eqb x y
  | PList x, PList y =>
      (fix all2 (x y : list value) : bool :=
         match x, y with
         | [], [] => true
         | u :: x', v :: y' => eq u v && all2 x' y'
         | _, _ => false
         end) x y
  | PDict x, PDict y =>
      Nat.eqb (length x) (length y) &&
      (fix all1 (x : list (string * value)) : bool :=
         match x with
         | [] => true
         | (k, u) :: x' =>
             match assoc k y with
             | Some v => eq u v
             | None => false
             end && all1 x'
         end) x
  | _, _ => false
  end.

(** [a < b]: defined between two strings, between numbers (bools
    included) and between lists; a [TypeError] otherwise. *)
Fixpoint lt (a b : value) {struct a} : result bool :=
  match a, b with
  | PStr x, PStr y => Ok (String.ltb x y)
  | PInt x, PInt y => Ok (x <? y)
  | PInt x, PBool y => Ok (x <? Z.b2z y)
  | PBool x, PInt y => Ok (Z.b2z x <? y)
  | PBool x, PBool y => Ok (Z.b2z x <? Z.b2z y)
  | PList x, PList y =>
      (fix lex (x y : list value) : result bool :=
         match x, y with
         | [], [] => Ok false
         | [], _ :: _ => Ok true
         | _ :: _, [] => Ok false
         | u :: x', v :: y' => if eq u v then lex x' y' else lt u v
         end) x y
  | _, _ => Raise TypeError
  end.

(** [a > b], which on these values is [b < a]. *)
Definition gt (a b : value) : result bool := lt b a.

(** [obj.get(key, default)]: only dicts have the method. *)
Definition get (obj : value) (key : string) (default : value) : result value :=
  match obj with
  | PDict d => Ok (match assoc key d with Some v => v | None => default end)
  | _ => Raise AttributeError
  end.

Fixpoint is_substring (sub s : string) : bool :=
  String.prefix sub s ||
  match s with
  | EmptyString => false
  | String _ r => is_substring sub r
  end.

(** [key in container] for a string [key]. *)
Definition contains (container : value) (key : string) : result bool :=
  match container with
  | PDict d => Ok (match assoc key d with Some _ => true | None => false end)
  | PList l => Ok (existsb (fun v => eq v (PStr key)) l)
  | PStr s => Ok (is_substring key s)
  | _ => Raise TypeError
  end.

(** [container[key]] for a string [key]. *)
Definition getitem (container : value) (key : string) : result value :=
  match container with
  | PDict d => match assoc key d with Some v => Ok v | None => Raise KeyError end
  | _ => Raise TypeError
  end.

(** [obj.values()] *)
Definition values (obj : value) : result (list value) :=
  match obj with
  | PDict d => Ok (map snd d)
  | _ => Raise AttributeError
  end.

Fixpoint chars (s : string) : list value :=
  match s with
  | EmptyString => []
  | String c r => PStr (String c EmptyString) :: chars r
  end.

(** The items a [for] loop draws from a value. *)
Definition iter (v : value) : result (list value) :=
  match v with
  | PList l => Ok l
  | PDict d => Ok (map (fun kv => PStr (fst kv)) d)
  | PStr s => Ok (chars s)
  | _ => Raise TypeError
  end.

(** Dicts built by the extractor, in insertion order; a key is found by
    [==]. *)
Definition dict (A : Type) : Type := list (value * A).

Fixpoint dict_get {A} (k : value) (d : dict A) : option A :=
  match d with
  | [] => None
  | (k', v) :: r => if eq k' k then Some v else dict_get k r
  end.

Fixpoint dict_set {A} (k : value) (v : A) (d : dict A) : dict A :=
  match d with
  | [] => [(k, v)]
  | (k', v') :: r =>
      if eq k' k then (k', v) :: r else (k', v') :: dict_set k v r
  end.

Definition dict_keys {A} (d : dict A) : list value := map fst d.

(** [set.add] and [set.update], a set being kept as a list without
    [==]-duplicates. *)
Definition set_add (x : value) (s : list value) : list value :=
  if existsb (eq x) s then s else s ++ [x].

Definition set_update (s : list value) (xs : list value) : list value :=
  fold_left (fun acc x => set_add x acc) xs s.

(** [sorted(xs)] for the members of a set: the comparisons are made with
    [<] and any of them may raise.  The members being hashable, they are
    strings or numbers; a sort of two or more of them has to compare a
    string with a number as soon as both kinds occur, whatever its
    strategy, so that insertion sort raises [TypeError] exactly when
    Python's sort does, and returns the same ascending list otherwise. *)
Fixpoint insert_sorted (x : value) (l : list value) : result (list value) :=
  match l with
  | [] => Ok [x]
  | y :: r =>
      b ← lt x y;
      if b : bool then Ok (x :: y :: r)
      else r' ← insert_sorted x r; Ok (y :: r')
  end.

Fixpoint sorted (l : list value) : result (list value) :=
  match l with
  | [] => Ok []
  | x :: r => r' ← sorted r; insert_sorted x r'
  end.

End Py.

(** ** Financial statements ([extractors/financial_extractor.py]) *)

Module FinancialExtractor.
Import Py.

(** The fields of [Config] the extractor reads, with the defaults of
    [config.py]. *)
Record Config : Type := mkConfig {
  preferred_units : list string;
  income_statement_concepts : list string;
  balance_sheet_concepts : list string;
  cash_flow_concepts : list string
}.

Definition default_config : Config :=
  {| preferred_units := ["USD"; "shares"];
     income_statement_concepts :=
       [ "Revenues"; "SalesRevenueNet"; "CostOfRevenue"; "GrossProfit";
         "OperatingExpenses"; "ResearchAndDevelopmentExpense";
         "SellingGeneralAndAdministrativeExpense"; "OperatingIncomeLoss";
         "InterestExpense"; "IncomeTaxExpenseBenefit"; "NetIncomeLoss" ];
     balance_sheet_concepts :=
       [ "Assets"; "AssetsCurrent"; "Liabilities"; "LiabilitiesCurrent";
         "StockholdersEquity";
         "StockholdersEquityIncludingPortionAttributableToNoncontrollingInterest";
         "RetainedEarningsAccumulatedDeficit";
         "CashAndCashEquivalentsAtCarryingValue"; "InventoryNet";
         "CommonStockSharesOutstanding" ];
     cash_flow_concepts :=
       [ "NetCashProvidedByUsedInOperatingActivities";
         "NetCashProvidedByUsedInInvestingActivities";
         "NetCashProvidedByUsedInFinancingActivities";
         "PaymentsToAcquirePropertyPlantAndEquipment";
         "DepreciationDepletionAndAmortization";
         "PaymentsForRepurchaseOfCommonStock";
         "ProceedsFromIssuanceOfLongTermDebt"; "RepaymentsOfLongTermDebt";
         "PaymentsOfDividends" ] |}.

(** [Dict[str, Tuple[Any, str]]]: date to (value, filed). *)
Definition Series : Type := dict (value * value).

(** A [for] loop that threads a state and stops at the first exception. *)
Fixpoint for_each {S} (body : S -> value -> result S) (items : list value)
    (st : S) : result S :=
  match items with
  | [] => Ok st
  | x :: rest => st' ← body st x; for_each body rest st'
  end.

(** The body of the loop of [_parse_unit_series], lines 220-231. *)
Definition parse_observation (series : Series) (obs : value) : result Series :=
  e ← get obs "end" PNone;
  i ← get obs "instant" PNone;
  f ← get obs "filed" PNone;
  let date := or_ (or_ e i) f in
  if negb (truthy date) then Ok series
  else
    value ← get obs "val" PNone;
    filed ← get obs "filed" (PStr "");
    if negb (hashable date) then Raise TypeError
    else
      match dict_get date series with
      | None => Ok (dict_set date (value, filed) series)
      | Some existing =>
          newer ← (if truthy filed then gt filed (snd existing) else Ok false);
          if newer : bool then Ok (dict_set date (value, filed) series)
          else Ok series
      end.

(** [FinancialStatementExtractor._parse_unit_series] *)
Definition _parse_unit_series (unit_data : value) : result Series :=
  observations ← iter unit_data;
  for_each parse_observation observations [].

(** First loop of [_extract_series]: the preferred units, in order. *)
Fixpoint try_preferred (units : value) (preferred : list string)
    : result (option Series) :=
  match preferred with
  | [] => Ok None
  | unit :: rest =>
      present ← contains units unit;
      if present : bool then
        unit_data ← getitem units unit;
        s ← _parse_unit_series unit_data;
        Ok (Some s)
      else try_preferred units rest
  end.

(** Second loop of [_extract_series]: any unit with a non-empty series. *)
Fixpoint first_nonempty (unit_datas : list value) : result Series :=
  match unit_datas with
  | [] => Ok []
  | unit_data :: rest =>
      s ← _parse_unit_series unit_data;
      match s with
      | [] => first_nonempty rest
      | _ :: _ => Ok s
      end
  end.

(** [FinancialStatementExtractor._extract_series] *)
Definition _extract_series (preferred_units : list string) (fact_obj : value)
    : result Series :=
  units ← get fact_obj "units" (PDict []);
  found ← try_preferred units preferred_units;
  match found with
  | Some s => Ok s
  | None => unit_datas ← values units; first_nonempty unit_datas
  end.

(** The rows handed to [csv.writer], header first. *)
Definition statement : Type := list (list value).

(** First loop of [_generate_statement], lines 139-147, on the pair
    ([concept_series], [all_dates]). *)
Fixpoint collect_series (preferred_units : list string) (us_gaap : value)
    (concepts : list string) (st : dict Series * list value)
    : result (dict Series * list value) :=
  match concepts with
  | [] => Ok st
  | concept_name :: rest =>
      fact_obj ← get us_gaap concept_name PNone;
      if negb (truthy fact_obj) then
        collect_series preferred_units us_gaap rest st
      else
        s ← _extract_series preferred_units fact_obj;
        match s with
        | [] => collect_series preferred_units us_gaap rest st
        | _ :: _ =>
            collect_series preferred_units us_gaap rest
              (dict_set (PStr concept_name) s (fst st),
               set_update (snd st) (dict_keys s))
        end
  end.

(** One data row, lines 166-170. *)
Definition data_row (concept_series : dict Series) (concepts : list string)
    (date : value) : list value :=
  date ::
  map (fun concept =>
         let s := default [] (dict_get (PStr concept) concept_series) in
         fst (default (PStr "", PStr "") (dict_get date s)))
      concepts.

(** [FinancialStatementExtractor._generate_statement]; the result is
    [None] when there is no date, else the rows written to the file. *)
Definition _generate_statement (preferred_units : list string)
    (us_gaap : value) (concepts : list string) : result (option statement) :=
  st ← collect_series preferred_units us_gaap concepts ([], []);
  let concept_series := fst st in
  let all_dates := snd st in
  match all_dates with
  | [] => Ok None
  | _ :: _ =>
      sorted_dates ← sorted all_dates;
      let header := PStr "Date" :: map PStr concepts in
      Ok (Some (header :: map (data_row concept_series concepts) sorted_dates))
  end.

(** The loop over the three statements, lines 90-97. *)
Fixpoint generate_all (preferred_units : list string) (us_gaap : value)
    (statements : list (string * list string))
    (generated : list (string * statement))
    : result (list (string * statement)) :=
  match statements with
  | [] => Ok generated
  | (stmt_code, concepts) :: rest =>
      csv ← _generate_statement preferred_units us_gaap concepts;
      generate_all preferred_units us_gaap rest
        match csv with
        | Some rows => generated ++ [(stmt_code, rows)]
        | None => generated
        end
  end.

Record extraction : Type := mkExtraction {
  generated : list (string * statement);
  raw_json : bool;
  statement_count : nat
}.

(** Lines 73-78 of [extract]: the US-GAAP namespace, else the whole
    facts mapping, which must not be empty. *)
Definition us_gaap_facts (facts : value) : result value :=
  all_facts ← get facts "facts" (PDict []);
  us_gaap ← get all_facts "us-gaap" (PDict []);
  let us_gaap := if truthy us_gaap then us_gaap else all_facts in
  if negb (truthy us_gaap) then Raise ExtractionError else Ok us_gaap.

(** The [statements] dict of [extract], in insertion order. *)
Definition statements (config : Config) : list (string * list string) :=
  [ ("IS", income_statement_concepts config);
    ("BS", balance_sheet_concepts config);
    ("CF", cash_flow_concepts config) ].

(** [FinancialStatementExtractor.extract], from the company facts the
    client has fetched; output files are kept as the rows written. *)
Definition extract (config : Config) (facts : value) (save_raw : bool)
    : result extraction :=
  reraise_as_extraction_error (
    us_gaap ← us_gaap_facts facts;
    generated ← generate_all (preferred_units config) us_gaap
                              (statements config) [];
    Ok {| generated := generated;
          raw_json := save_raw;
          statement_count := length generated |}).

(** *** Vocabulary for the statements about the extractor *)

(** An observation record as the facts API documents it: a JSON object
    whose [end], [instant] and [filed] members, when present, are
    strings. *)
Definition str_or_absent (k : string) (d : list (string * value)) : bool :=
  match assoc k d with
  | None | Some (PStr _) => true
  | Some _ => false
  end.

Definition is_observation (obs : value) : bool :=
  match obs with
  | PDict d =>
      str_or_absent "end" d && str_or_absent "instant" d &&
      str_or_absent "filed" d
  | _ => false
  end.

Definition str_field (k : string) (obs : value) : string :=
  match obs with
  | PDict d => match assoc k d with Some (PStr s) => s | _ => "" end
  | _ => ""
  end.

(** The date key of an observation: its period end, else its instant,
    else its filed date; [""] when it has none. *)
Definition date_key (obs : value) : string :=
  if negb (String.eqb (str_field "end" obs) "") then str_field "end" obs
  else if negb (String.eqb (str_field "instant" obs) "")
       then str_field "instant" obs
       else str_field "filed" obs.

(** The filed date, [""] when the observation has none. *)
Definition filed_of (obs : value) : string := str_field "filed" obs.

Definition val_of (obs : value) : value :=
  match obs with
  | PDict d => default PNone (assoc "val" d)
  | _ => PNone
  end.

(** Facts whose units are all lists of observation records. *)
Definition is_unit_data (v : value) : bool :=
  match v with
  | PList l => forallb is_observation l
  | _ => false
  end.

Definition is_fact (v : value) : bool :=
  match v with
  | PDict d =>
      match assoc "units" d with
      | Some (PDict units) => forallb (fun kv => is_unit_data (snd kv)) units
      | None => true
      | Some _ => false
      end
  | _ => false
  end.

(** A graph in which every listed concept is absent or a fact. *)
Definition is_graph_for (concepts : list string) (us_gaap : value) : bool :=
  match us_gaap with
  | PDict d =>
      forallb (fun c => match assoc c d with
                        | None => true
                        | Some f => negb (truthy f) || is_fact f
                        end) concepts
  | _ => false
  end.

(** The series the builder resolves for a concept, empty when the
    concept contributes nothing. *)
Definition resolved (preferred_units : list string) (us_gaap : value)
    (concept : string) : Series :=
  match get us_gaap concept PNone with
  | Ok fact_obj =>
      if truthy fact_obj then
        match _extract_series preferred_units fact_obj with
        | Ok s => s
        | Raise _ => []
        end
      else []
  | Raise _ => []
  end.

(** Series whose keys and filed dates are strings. *)
Definition typed_entry (kv : value * (value * value)) : Prop :=
  exists d v f, kv = (PStr d, (v, PStr f)).

Definition typed (s : Series) : Prop := Forall typed_entry s.

(** [first_latest l d obs]: among the observations of [l] with date key
    [d], [obs] has the greatest filed date, and is the first to have it. *)
Definition first_latest (l : list value) (d : string) (obs : value) : Prop :=
  exists l1 l2,
    l = l1 ++ obs :: l2 /\ date_key obs = d /\
    (forall o, o ∈ l1 -> date_key o = d ->
       String.ltb (filed_of o) (filed_of obs) = true) /\
    (forall o, o ∈ l2 -> date_key o = d ->
       String.leb (filed_of o) (filed_of obs) = true).

(** [resolves l s]: [s] holds, for every date key of [l], the value and
    filed date of its [first_latest] observation, and nothing else. *)
Definition resolves (l : list value) (s : Series) : Prop :=
  typed s /\
  forall d,
    match dict_get (PStr d) s with
    | None => d <> "" -> forall o, o ∈ l -> date_key o <> d
    | Some e =>
        d <> "" /\
        exists obs, first_latest l d obs /\
                    e = (val_of obs, PStr (filed_of obs))
    end.

Definition observation (date : string) (val : Z) (filed : string) : value :=
  PDict [("end", PStr date); ("val", PInt val); ("filed", PStr filed)].

(** Two observations for one reporting date, the second filed later. *)
Definition revised_pair : list value :=
  [ observation "2023-03-31" 100 "2023-01-10";
    observation "2023-03-31" 120 "2023-02-15" ].

(** Two observations for one reporting date filed on the same day. *)
Definition same_day_pair : list value :=
  [ observation "2023-03-31" 100 "2023-02-15";
    observation "2023-03-31" 120 "2023-02-15" ].

(** A fact reported once in USD and twice in shares. *)
Definition usd_and_shares_units : list (string * value) :=
  [ ("shares", PList [ observation "2022-12-31" 7 "2023-02-01";
                       observation "2023-12-31" 8 "2024-02-01" ]);
    ("USD", PList [ observation "2023-12-31" 500 "2024-02-01" ]) ].

Definition usd_and_shares_fact : value :=
  PDict [("units", PDict usd_and_shares_units)].

(** Dicts all of whose keys are strings. *)
Definition str_keyed {A} (d : dict A) : Prop :=
  Forall (fun kv => exists k, fst kv = PStr k) d.

(** [has_value .. concept date]: the concept has a resolved value at the
    date; [cell .. concept date]: what the row of the date shows for the
    concept. *)
Definition has_value (preferred_units : list string) (us_gaap : value)
    (concept date : string) : Prop :=
  is_Some (dict_get (PStr date) (resolved preferred_units us_gaap concept)).

Definition cell (preferred_units : list string) (us_gaap : value)
    (concept date : string) : value :=
  match dict_get (PStr date) (resolved preferred_units us_gaap concept) with
  | Some e => fst e
  | None => PStr ""
  end.

Definition statement_for (preferred_units : list string) (us_gaap : value)
    (concepts dates : list string) : statement :=
  (PStr "Date" :: map PStr concepts) ::
  map (fun d => PStr d :: map (fun c => cell preferred_units us_gaap c d) concepts)
      dates.

(** Two concepts reported at different dates. *)
Definition two_concept_graph : value :=
  PDict [ ("Assets", PDict [("units", PDict [("USD", PList
             [ observation "2023-12-31" 510 "2024-02-20";
               observation "2022-12-31" 400 "2023-02-20" ])])]);
          ("Liabilities", PDict [("units", PDict [("USD", PList
             [ observation "2023-12-31" 200 "2024-02-20" ])])]) ].

(** Plain string comparison, strict. *)
Definition str_lt (a b : string) : Prop := String.ltb a b = true.

(** [collected .. done cs ds]: the state of the first loop of
    [_generate_statement] once the concepts [done] have been looked at:
    [cs] holds their non-empty series and [ds] is the set of their
    dates. *)
Definition collected (preferred_units : list string) (us_gaap : value)
    (done : list string) (cs : dict Series) (ds : list string) : Prop :=
  str_keyed cs /\
  (forall c, c ∈ done ->
     default [] (dict_get (PStr c) cs) = resolved preferred_units us_gaap c) /\
  (forall c, c ∉ done -> dict_get (PStr c) cs = None) /\
  NoDup ds /\
  (forall d, d ∈ ds <->
     exists c, c ∈ done /\ has_value preferred_units us_gaap c d).

(** A graph in which [Revenues] has a list where its units mapping
    should be, next to a sound [Assets]. *)
Definition malformed_graph : value :=
  PDict [("facts", PDict [("us-gaap", PDict
    [ ("Revenues", PDict [("units", PList [PStr "USD"])]);
      ("Assets", PDict [("units", PDict
         [("USD", PList [observation "2023-12-31" 500 "2024-02-01"])])]) ])])].

(** "A failure in one concept never aborts the batch": the extraction
    returns. *)
Definition batch_survives (config : Config) (facts : value) : Prop :=
  exists r, extract config facts true = Ok r.

(** [FinancialStatementExtractor.extract_custom_concepts], from the
    company facts the client has fetched; [can_mkdir] tells whether the
    parent of the output path can be made.  The result is [None] when
    there is no date, else the rows written to the file. *)
Definition extract_custom_concepts (config : Config) (facts : value)
    (concepts : list string) (can_mkdir : bool) : result (option statement) :=
  reraise_as_extraction_error (
    all_facts ← get facts "facts" (PDict []);
    us_gaap ← get all_facts "us-gaap" (PDict []);
    let us_gaap := if truthy us_gaap then us_gaap else all_facts in
    _ ← (if can_mkdir then Ok tt else Raise OSError);
    _generate_statement (preferred_units config) us_gaap concepts).

(** The concepts of the three statements. *)
Definition listed_concepts (config : Config) : list string :=
  income_statement_concepts config ++ balance_sheet_concepts config ++
  cash_flow_concepts config.

(** [reported g c]: the graph [g] has something for the concept [c],
    the test of line 141. *)
Definition reported (g : list (string * value)) (c : string) : bool :=
  truthy (default PNone (assoc c g)).

(** Facts of a filer that reports under another taxonomy only. *)
Definition ifrs_only_facts : value :=
  PDict [("cik", PInt 1234); ("facts", PDict [("ifrs-full", PDict
    [("Assets", PDict [("units", PDict
       [("EUR", PList [observation "2023-12-31" 500 "2024-02-01"])])])])])].

(** Company facts with a balance sheet and nothing else. *)
Definition balance_sheet_only_facts : value :=
  PDict [("facts", PDict [("us-gaap", two_concept_graph)])].

End FinancialExtractor.


(** ** Section extraction ([extractors/section_extractor.py]) *)

Module SectionExtractor.
Import Py.

Definition LF : ascii := ascii_of_nat 10.
Definition CR : ascii := ascii_of_nat 13.
Definition TAB : ascii := ascii_of_nat 9.

(** *** The regular expressions of the module

    Each pattern is given by a matcher that tells how many characters
    the pattern consumes at the head of a string, if it matches there.
    Letters are compared without case and [\d], [\s] are taken on the
    ASCII range. *)

(** [re.sub(pattern, repl, s)] for a pattern whose matches are never
    empty: leftmost matches, not overlapping; [skip] counts the
    characters of the current match still to be dropped. *)
Fixpoint re_sub (matcher : string -> option nat) (repl : string)
    (skip : nat) (s : string) : string :=
  match s with
  | EmptyString => EmptyString
  | String c r =>
      match skip with
      | S k => re_sub matcher repl k r
      | O =>
          match matcher s with
          | Some n => String.append repl (re_sub matcher repl (Nat.pred n) r)
          | None => String c (re_sub matcher repl 0 r)
          end
      end
  end.

(** [s] with the prefix [pat] removed, [pat] being in lower case and
    compared without case. *)
Fixpoint strip_prefix_ci (pat s : string) : option string :=
  match pat, s with
  | EmptyString, _ => Some s
  | String p pat', String c s' =>
      if Ascii.eqb p (Chars.lower_ascii c) then strip_prefix_ci pat' s' else None
  | String _ _, EmptyString => None
  end.

(** Index of the first occurrence of [pat] in [s], without case. *)
Fixpoint find_ci (pat s : string) : option nat :=
  match strip_prefix_ci pat s with
  | Some _ => Some 0%nat
  | None =>
      match s with
      | EmptyString => None
      | String _ r => option_map S (find_ci pat r)
      end
  end.

(** The longest prefix whose characters satisfy [p], and the rest. *)
Fixpoint span (p : ascii -> bool) (s : string) : string * string :=
  match s with
  | EmptyString => (EmptyString, EmptyString)
  | String c r =>
      if p c then let '(a, b) := span p r in (String c a, b)
      else (EmptyString, s)
  end.

(** [<script[\s\S]*?</script>] and [<style[\s\S]*?</style>]: from the
    opening text to the first closing text after it. *)
Definition match_block (open_ close_ : string) (s : string) : option nat :=
  match strip_prefix_ci open_ s with
  | Some rest =>
      match find_ci close_ rest with
      | Some i => Some (String.length open_ + i + String.length close_)%nat
      | None => None
      end
  | None => None
  end.

(** [<(br|/p|/div|/tr|/h\d)>] *)
Definition match_block_end (s : string) : option nat :=
  match s with
  | String "<"%char r =>
      let closed (rest : option string) (n : nat) : option nat :=
        match rest with
        | Some (String ">"%char _) => Some n
        | _ => None
        end in
      let heading :=
        match strip_prefix_ci "/h" r with
        | Some (String d (String ">"%char _)) =>
            if Chars.isdigit d then Some 5%nat else None
        | _ => None
        end in
      match closed (strip_prefix_ci "br" r) 4%nat with
      | Some n => Some n
      | None =>
      match closed (strip_prefix_ci "/p" r) 4%nat with
      | Some n => Some n
      | None =>
      match closed (strip_prefix_ci "/div" r) 6%nat with
      | Some n => Some n
      | None =>
      match closed (strip_prefix_ci "/tr" r) 5%nat with
      | Some n => Some n
      | None => heading
      end end end end
  | _ => None
  end.

(** [<[^>]+>] *)
Definition match_tag (s : string) : option nat :=
  match s with
  | String "<"%char r =>
      let '(inner, rest) := span (fun c => negb (Ascii.eqb c ">"%char)) r in
      match inner, rest with
      | String _ _, String _ _ => Some (String.length inner + 2)%nat
      | _, _ => None
      end
  | _ => None
  end.

(** [\r\n|\r] *)
Definition match_line_end (s : string) : option nat :=
  match s with
  | String c r =>
      if Ascii.eqb c CR then
        match r with
        | String c' _ => if Ascii.eqb c' LF then Some 2%nat else Some 1%nat
        | EmptyString => Some 1%nat
        end
      else None
  | EmptyString => None
  end.

(** [ ], the two bytes C2 A0 of its UTF-8 form. *)
Definition match_nbsp (s : string) : option nat :=
  match s with
  | String c (String c' _) =>
      if Ascii.eqb c (ascii_of_nat 194) && Ascii.eqb c' (ascii_of_nat 160)
      then Some 2%nat else None
  | _ => None
  end.

(** A run of at least [least] characters satisfying [p]: [[\t ]+],
    [\n{2,}], [\n{3,}]. *)
Definition match_run (p : ascii -> bool) (least : nat) (s : string)
    : option nat :=
  let n := String.length (fst (span p s)) in
  if (least <=? n)%nat then Some n else None.

Definition is_blank (c : ascii) : bool :=
  Ascii.eqb c TAB || Ascii.eqb c " "%char.

Definition is_lf (c : ascii) : bool := Ascii.eqb c LF.

Definition isalpha (c : ascii) : bool :=
  Chars.isalpha_lower (Chars.lower_ascii c).

(** What [pattern.finditer] yields for one match of the header pattern:
    its bounds and its two groups. *)
Record Match : Type := mkMatch {
  m_start : nat;
  m_end : nat;
  group1 : string;
  group2 : string
}.

(** The header pattern of [_find_sections] at the head of [s], which is
    at the beginning of a line: white space, [item], white space, the
    group [\d+[a-z]?], an optional dot, white space and the rest of the
    line as second group.  The result is the length of the match and
    the two groups.  Every quantifier is greedy and nothing after [\d+]
    can fail, so no backtracking is involved.

    The classes [\s], [\d] and [[a-z]] and the letters of [item] under
    the ignore-case flag are taken on texts that hold ASCII characters
    only ([Chars.is_ascii]); the statements about the segmenter assume
    such texts.  Above U+007F Python knows more white space, more
    decimal digits and more letters that fold to ASCII ones. *)
Definition match_header (s : string) : option (nat * string * string) :=
  let '(_, s1) := span Chars.isspace_ascii s in
  match strip_prefix_ci "item" s1 with
  | None => None
  | Some s2 =>
      let '(gap, s3) := span Chars.isspace_ascii s2 in
      let '(digits, s4) := span Chars.isdigit s3 in
      match gap, digits with
      | String _ _, String _ _ =>
          let '(letter, s5) :=
            match s4 with
            | String c r =>
                if isalpha c then (String c EmptyString, r)
                else (EmptyString, s4)
            | EmptyString => (EmptyString, s4)
            end in
          let s6 :=
            match s5 with
            | String "."%char r => r
            | _ => s5
            end in
          let '(_, s7) := span Chars.isspace_ascii s6 in
          let '(title, s8) := span (fun c => negb (is_lf c)) s7 in
          Some ((String.length s - String.length s8)%nat,
                String.append digits letter, title)
      | _, _ => None
      end
  end.

(** [list(pattern.finditer(text))] with the flags [(?im)]: [pos] is the
    index of the head of [s] in the text, [bol] tells whether it is at
    the beginning of a line. *)
Fixpoint finditer_from (pos : nat) (bol : bool) (skip : nat) (s : string)
    : list Match :=
  match s with
  | EmptyString => []
  | String c r =>
      let bol' := is_lf c in
      match skip with
      | S k => finditer_from (S pos) bol' k r
      | O =>
          match (if bol then match_header s else None) with
          | Some (n, g1, g2) =>
              {| m_start := pos; m_end := (pos + n)%nat;
                 group1 := g1; group2 := g2 |}
              :: finditer_from (S pos) bol' (Nat.pred n) r
          | None => finditer_from (S pos) bol' 0 r
          end
      end
  end.

Definition finditer (text : string) : list Match :=
  finditer_from 0 true 0 text.

Section WithEntities.

(** [html.unescape] returns its argument when it holds no [&] and
    else substitutes the character references; the substitution, with
    its table of entity names, belongs to the standard library. *)
Variable replace_charrefs : string -> string.

Definition unescape (s : string) : string :=
  match find_ci "&" s with
  | None => s
  | Some _ => replace_charrefs s
  end.

(** [SectionExtractor._html_to_text].  The text without script blocks
    (line 108) is bound to [text] and then overwritten by line 109,
    which starts again from [html]. *)
Definition _html_to_text (html : string) : string :=
  let text := re_sub (match_block "<script" "</script>") " " 0 html in
  let text := re_sub (match_block "<style" "</style>") " " 0 html in
  let text := re_sub match_block_end (String LF EmptyString) 0 text in
  let text := re_sub match_tag " " 0 text in
  let text := unescape text in
  let text := re_sub match_line_end (String LF EmptyString) 0 text in
  let text := re_sub match_nbsp " " 0 text in
  let text := re_sub (match_run is_blank 1) " " 0 text in
  let text :=
    re_sub (match_run is_lf 2) (String LF (String LF EmptyString)) 0 text in
  text.

(** The loop of [_find_sections], lines 150-163. *)
Fixpoint build_sections (text : string) (matches : list Match)
    : list (string * string * string) :=
  match matches with
  | [] => []
  | m :: rest =>
      let item_id := Chars.upper (group1 m) in
      let title := Chars.strip (group2 m) in
      let start := m_end m in
      let end_ :=
        match rest with
        | next :: _ => m_start next
        | [] => String.length text
        end in
      let content :=
        Chars.strip (String.substring start (end_ - start) text) in
      let content :=
        re_sub (match_run is_lf 3) (String LF (String LF EmptyString)) 0
               content in
      (item_id, title, content) :: build_sections text rest
  end.

(** [SectionExtractor._find_sections] *)
Definition _find_sections (text : string) : list (string * string * string) :=
  let matches := finditer text in
  match matches with
  | [] => []
  | _ :: _ => build_sections text matches
  end.

(** What [Path] tells about the source: it does not exist, it is not a
    regular file, it is a file of some size whose text can be read or
    not, or its status cannot be read at all ([exists], [is_file] and
    [stat] then raise the [OSError] they get, a permission error for
    one). *)
Inductive source : Type :=
| Missing
| NotAFile
| RegularFile (st_size : nat) (read_text : option string)
| Inaccessible.

(** [BaseExtractor.validate_source] *)
Definition validate_source (src : source) : result unit :=
  match src with
  | Missing => Raise ExtractionError
  | NotAFile => Raise ExtractionError
  | RegularFile st_size _ =>
      match st_size with
      | O => Raise ExtractionError
      | S _ => Ok tt
      end
  | Inaccessible => Raise OSError
  end.

(** [BaseExtractor.ensure_output_dir]: [mkdir] succeeds or raises. *)
Definition ensure_output_dir (can_mkdir : bool) : result unit :=
  if can_mkdir then Ok tt else Raise OSError.

Definition read_source (src : source) : result string :=
  match src with
  | RegularFile _ (Some raw_html) => Ok raw_html
  | _ => Raise OSError
  end.

Record extraction : Type := mkExtraction {
  sections : dict string;
  index_file : option string;
  section_count : nat
}.

(** [section_files[item_id] = str(md_path)] for each section in turn:
    a later section with the same identifier takes the entry over. *)
Fixpoint section_files (found : list (string * string * string))
    (files : dict string) : dict string :=
  match found with
  | [] => files
  | (item_id, _, _) :: rest =>
      section_files rest
        (dict_set (PStr item_id)
                  (String.append "Item_" (String.append item_id ".md")) files)
  end.

(** [SectionExtractor.extract]; of the files written only the names
    are kept. *)
Definition extract (src : source) (can_mkdir : bool) : result extraction :=
  _ ← validate_source src;
  _ ← ensure_output_dir can_mkdir;
  reraise_as_extraction_error (
    raw_html ← read_source src;
    let text := _html_to_text raw_html in
    let found := _find_sections text in
    match found with
    | [] =>
        Ok {| sections := []; index_file := None; section_count := 0 |}
    | _ :: _ =>
        Ok {| sections := section_files found [];
              index_file := Some "sections_index.md";
              section_count := length found |}
    end).

End WithEntities.

(** A page with a script element in front of its text. *)
Definition page_with_script : string :=
  "<script>var x = 1;</script><p>Hello</p>".

Definition page_with_style : string :=
  "<style>p { color: red }</style><p>Hello</p>".



(** *** The index and the section files *)

(** [int(digits)] for a string of ASCII digits, most significant first. *)
Fixpoint int_of_digits (acc : Z) (digits : string) : Z :=
  match digits with
  | EmptyString => acc
  | String c r => int_of_digits (10 * acc + (Z.of_nat (nat_of_ascii c) - 48)) r
  end.

Definition is_upper (c : ascii) : bool :=
  let n := nat_of_ascii c in ((65 <=? n) && (n <=? 90))%nat.

(** [SectionExtractor._sort_key]: the pattern [(\d+)([A-Z]?)] is tried at
    the start of the identifier, without the ignore-case flag.  The
    identifier is taken to hold ASCII characters only and no more than
    4300 of them: on a longer run of digits [int] may raise
    [ValueError], the default limit of the interpreter on the digits of
    a number it converts. *)
Definition _sort_key (item_id : string) : Z * string :=
  let '(digits, rest) := span Chars.isdigit item_id in
  match digits with
  | EmptyString => (0, item_id)
  | String _ _ =>
      let letter :=
        match rest with
        | String c _ => if is_upper c then String c EmptyString else EmptyString
        | EmptyString => EmptyString
        end in
      (int_of_digits 0 digits, letter)
  end.

(** [a < b] on the tuples [_sort_key] returns. *)
Definition key_ltb (a b : Z * string) : bool :=
  (fst a <? fst b) || ((fst a =? fst b) && String.ltb (snd a) (snd b)).

(** [sorted(sections, key=lambda x: self._sort_key(x[0]))]: the sort is
    stable, which insertion from the right in front of the first element
    that is not smaller gives. *)
Fixpoint insert_by_key (x : string * string * string)
    (l : list (string * string * string)) : list (string * string * string) :=
  match l with
  | [] => [x]
  | y :: r =>
      if key_ltb (_sort_key (fst (fst y))) (_sort_key (fst (fst x)))
      then y :: insert_by_key x r
      else x :: y :: r
  end.

Definition sorted_by_key (l : list (string * string * string))
    : list (string * string * string) :=
  fold_right insert_by_key [] l.

(** The file name [f"Item_{item_id}.md"]. *)
Definition section_filename (item_id : string) : string :=
  "Item_" +:+ item_id +:+ ".md".

(** The lines [_write_index] writes after the title, as the identifier,
    the title and the file name each of them shows. *)
Definition index_entries (found : list (string * string * string))
    : list (string * string * string) :=
  map (fun s => (fst (fst s), snd (fst s), section_filename (fst (fst s))))
      (sorted_by_key found).

(** [SectionExtractor._write_section]: the name of the file and the text
    written to it. *)
Definition _write_section (item_id title content : string) : string * string :=
  let header := "## Item " +:+ item_id in
  let header :=
    if negb (String.eqb title "") then header +:+ " " +:+ title else header in
  (section_filename item_id,
   header +:+ String LF (String LF EmptyString) +:+ content +:+ String LF EmptyString).

(** The files the loop of [extract], lines 71-78, leaves in the output
    directory, by name: a file opened again with ["w"] is replaced. *)
Fixpoint write_sections (found : list (string * string * string))
    (files : dict string) : dict string :=
  match found with
  | [] => files
  | (item_id, title, content) :: rest =>
      let '(name, text) := _write_section item_id title content in
      write_sections rest (dict_set (PStr name) text files)
  end.

(** *** Vocabulary for the statements about the segmenter *)

(** An item identifier: ASCII digits, at least one, then at most one
    upper-case ASCII letter. *)
Definition all_chars (p : ascii -> bool) (s : string) : bool :=
  forallb p (list_ascii_of_string s).

Definition is_item_id (item_id : string) : Prop :=
  exists digits letter,
    item_id = digits +:+ letter /\ digits <> "" /\
    all_chars Chars.isdigit digits = true /\
    (letter = "" \/ exists c, letter = String c "" /\ is_upper c = true).

(** [short_runs p limit seen s]: no more than [limit] characters
    satisfying [p] follow each other in [s], [seen] of them coming just
    before [s]. *)
Fixpoint short_runs (p : ascii -> bool) (limit seen : nat) (s : string) : bool :=
  match s with
  | EmptyString => true
  | String c r =>
      if p c then (S seen <=? limit)%nat && short_runs p limit (S seen) r
      else short_runs p limit 0 r
  end.

(** [key_le x y]: the sort key of section [x] is not above that of [y]. *)
Definition key_le (x y : string * string * string) : Prop :=
  key_ltb (_sort_key (fst (fst y))) (_sort_key (fst (fst x))) = false.

End SectionExtractor.

(** ** [TableExtractor.extract] and its files *)

Module TableExtractorIO.
Import Py TableExtractor SectionExtractor.

(** The two limits [extract] takes from [Config] when they are not
    given, with the defaults of [config.py]. *)
Record Limits : Type := mkLimits {
  min_table_columns : Z;
  max_tables_per_file : Z
}.

Definition default_limits : Limits :=
  {| min_table_columns := 2; max_tables_per_file := 200 |}.

(** What [extract] returns, with the tables handed to
    [_write_table_csv], one file each, and the record handed to
    [json.dump] by [_write_tables_json]. *)
Record extraction : Type := mkExtraction {
  csv_files : list string;
  json_file : string;
  table_count : nat;
  csv_written : list (string * table);
  json_written : string * (nat * list table)
}.

(** [f"{stem}_table_{i}.csv"] *)
Definition csv_name (stem : string) (i : nat) : string :=
  stem +:+ "_table_" +:+ pretty i +:+ ".csv".

(** [enumerate(filtered_tables, start=i)] with the file name of each. *)
Fixpoint csv_paths (stem : string) (i : nat) (tables : list table)
    : list (string * table) :=
  match tables with
  | [] => []
  | t :: rest => (csv_name stem i, t) :: csv_paths stem (S i) rest
  end.

Section WithTokenizer.

(** The callbacks [HTMLParser.feed] makes on a text, or the exception
    the tokenizer raises on it. *)
Variable tokenize : string -> result (list event).

(** Whether the file of a given name can be opened and written. *)
Variable can_write : string -> bool.

(** [_write_table_csv] and [_write_tables_json] write or raise. *)
Definition write_file (path : string) : result unit :=
  if can_write path then Ok tt else Raise OSError.

(** The loop of lines 161-164, on the list [csv_files]. *)
Fixpoint write_tables (files : list (string * table)) (csv_files : list string)
    : result (list string) :=
  match files with
  | [] => Ok csv_files
  | (csv_path, _) :: rest =>
      _ ← write_file csv_path;
      write_tables rest (csv_files ++ [csv_path])
  end.

(** [TableExtractor.extract]; [stem] is [source.stem]. *)
Definition extract (config : Limits) (src : source) (stem : string)
    (can_mkdir : bool) (min_columns max_tables : option Z) : result extraction :=
  _ ← validate_source src;
  _ ← ensure_output_dir can_mkdir;
  let min_columns := default (min_table_columns config) min_columns in
  let max_tables := default (max_tables_per_file config) max_tables in
  reraise_as_extraction_error (
    html_content ← read_source src;
    events ← tokenize html_content;
    let filtered := filtered_tables (parse events) min_columns max_tables in
    let files := csv_paths stem 1 filtered in
    csv_files ← write_tables files [];
    let json_path := stem +:+ "_tables.json" in
    _ ← write_file json_path;
    Ok {| csv_files := csv_files;
          json_file := json_path;
          table_count := length filtered;
          csv_written := files;
          json_written := (json_path, (length filtered, filtered)) |}).

End WithTokenizer.

End TableExtractorIO.

(** * Properties *)

(** ** Strings *)

Module StringFacts.

Lemma chars_append s1 s2 :
  list_ascii_of_string (s1 +:+ s2)
  = list_ascii_of_string s1 ++ list_ascii_of_string s2.
Proof. induction s1 as [|c s1 IH]; simpl; [done|]. by rewrite IH. Qed.

Lemma append_inj_r t s1 s2 : s1 +:+ t = s2 +:+ t -> s1 = s2.
Proof.
  intros H%(f_equal list_ascii_of_string). rewrite !chars_append in H.
  apply app_inv_tail in H.
  by rewrite <- (string_of_list_ascii_of_string s1),
             <- (string_of_list_ascii_of_string s2), H.
Qed.

End StringFacts.

(** ** The table parser and the table filter *)

Module TableFacts.
Import TableExtractor.

Example parse_two_by_two :
  parse [ StartTag "table" []; StartTag "tr" []; StartTag "td" []; Data "A";
          EndTag "td"; StartTag "td" []; Data "B"; EndTag "td"; EndTag "tr";
          StartTag "tr" []; StartTag "td" []; Data " 1 "; EndTag "td";
          StartTag "td" []; Data "2"; EndTag "td"; EndTag "tr";
          EndTag "table" ]
  = [ [ ["A"; "B"]; ["1"; "2"] ] ].
Proof. reflexivity. Qed.

Example parse_nested_example : parse nested_example = [ [ ["A"]; ["Y"] ] ].
Proof. reflexivity. Qed.

Example parse_nested_cut :
  parse (drop_nested_content 0 nested_example) = [ [ ["A"]; [""] ] ].
Proof. reflexivity. Qed.

(** *** One callback at a time *)

Lemma set_depth_id p d : _in_table_depth p = d -> set_depth d p = p.
Proof. intros <-. by destruct p. Qed.

Lemma feed_cons p e events : feed p (e :: events) = feed (dispatch p e) events.
Proof. reflexivity. Qed.

Lemma feed_app p ev1 ev2 : feed p (ev1 ++ ev2) = feed (feed p ev1) ev2.
Proof. apply fold_left_app. Qed.

Ltac handlers :=
  unfold dispatch, handle_starttag, handle_endtag, handle_data, set_depth,
    is_table_start, is_table_end in *; simpl in *.

(** A nested table-open tag only counts. *)
Lemma nested_open_counts p e k :
  is_table_start e = true -> _in_table_depth p = S k ->
  dispatch p e = set_depth (S (S k)) p.
Proof.
  destruct e as [tag attrs| |]; handlers; try discriminate.
  intros -> ->. reflexivity.
Qed.

(** A table-close tag that leaves the depth above 0 only counts. *)
Lemma nested_close_counts p e k :
  is_table_end e = true -> _in_table_depth p = S (S k) ->
  dispatch p e = set_depth (S k) p.
Proof.
  destruct e as [|tag|]; handlers; try discriminate.
  intros -> ->. reflexivity.
Qed.

(** The handlers of rows, cells and text do not look at how deep the
    parser is, as long as it is inside a table. *)
Lemma inner_event_any_depth p e k d :
  is_table_start e = false -> is_table_end e = false ->
  _in_table_depth p = S k ->
  dispatch (set_depth (S d) p) e = set_depth (S d) (dispatch p e).
Proof.
  destruct e as [tag attrs|tag|data]; handlers; intros Hs He Hd.
  - rewrite Hs, Hd. repeat case_match; simpl in *; congruence.
  - rewrite He, Hd. repeat case_match; simpl in *; congruence.
  - rewrite Hd. repeat case_match; simpl in *; congruence.
Qed.

Lemma inner_event_keeps_depth p e :
  is_table_start e = false -> is_table_end e = false ->
  _in_table_depth (dispatch p e) = _in_table_depth p.
Proof.
  destruct e as [tag attrs|tag|data]; handlers; intros Hs He.
  - rewrite Hs. repeat case_match; simpl; congruence.
  - rewrite He. repeat case_match; simpl; congruence.
  - repeat case_match; simpl; congruence.
Qed.

Lemma outer_open_depth p e :
  is_table_start e = true ->
  _in_table_depth (dispatch p e) = S (_in_table_depth p).
Proof.
  destruct e as [tag attrs| |]; handlers; try discriminate.
  by intros ->.
Qed.

Lemma outer_close_depth p e :
  is_table_end e = true ->
  _in_table_depth (dispatch p e) = Nat.pred (_in_table_depth p).
Proof.
  destruct e as [|tag|]; handlers; try discriminate.
  intros ->. repeat case_match; simpl; congruence.
Qed.

(** *** Nested table tags can be erased *)

Lemma feed_erase_nested events : forall p,
  tables (feed p events)
  = tables (feed (set_depth (Nat.min 1 (_in_table_depth p)) p)
                 (erase_nested_tags (_in_table_depth p) events)).
Proof.
  induction events as [|e rest IH]; intros p; [reflexivity|].
  rewrite feed_cons, IH. cbn [erase_nested_tags].
  destruct (_in_table_depth p) as [|k] eqn:Hd.
  - (* outside any table the two parsers are the same one *)
    rewrite (set_depth_id p (Nat.min 1 0)) by exact Hd.
    assert (Hq : exists n, _in_table_depth (dispatch p e) = n /\ Nat.min 1 n = n /\
                 (if is_table_start e then e :: erase_nested_tags 1 rest
                  else if is_table_end e then e :: erase_nested_tags 0 rest
                  else e :: erase_nested_tags 0 rest)
                 = e :: erase_nested_tags n rest).
    { destruct (is_table_start e) eqn:Hs;
        [|destruct (is_table_end e) eqn:He].
      - exists 1%nat. by rewrite (outer_open_depth p e Hs), Hd.
      - exists 0%nat. by rewrite (outer_close_depth p e He), Hd.
      - exists 0%nat. by rewrite (inner_event_keeps_depth p e Hs He), Hd. }
    destruct Hq as (n & Hn & Hmin & ->).
    by rewrite feed_cons, Hn, Hmin, (set_depth_id _ _ Hn).
  - change (Nat.min 1 (S k)) with 1%nat.
    destruct (is_table_start e) eqn:Hs;
      [|destruct (is_table_end e) eqn:He].
    + rewrite (nested_open_counts p e k Hs Hd). reflexivity.
    + destruct k as [|k].
      * rewrite feed_cons, (set_depth_id p 1 Hd).
        assert (Hq : _in_table_depth (dispatch p e) = 0%nat)
          by (by rewrite (outer_close_depth p e He), Hd).
        rewrite Hq. change (Nat.min 1 0) with 0%nat.
        by rewrite (set_depth_id _ _ Hq).
      * rewrite (nested_close_counts p e k He Hd). reflexivity.
    + rewrite feed_cons, (inner_event_any_depth p e k 0 Hs He Hd).
      rewrite (inner_event_keeps_depth p e Hs He), Hd. reflexivity.
Qed.

(** C2 (as stated) fails: in [nested_example] the nested table's row
    [["Y"]] is appended to the outer table, where a parser ignoring
    nested content would have produced an empty cell. *)
Lemma nested_content_not_ignored : ~ nested_content_ignored nested_example.
Proof. unfold nested_content_ignored. vm_compute. discriminate. Qed.

(** C2 (amended): the parser's output is the output for the stream in
    which the open and close tags of nested tables are deleted.  Nested
    table tags only move the depth counter; the rows, cells and text
    between them are handled as rows, cells and text of the outer table
    and end up in it. *)
Theorem nested_tables_merged_into_outer (events : list event) :
  parse events = parse (erase_nested_tags 0 events).
Proof. unfold parse. rewrite feed_erase_nested. reflexivity. Qed.

(** *** When a table is appended *)

Lemma dispatch_tables p e :
  tables (dispatch p e) = tables p \/
  (is_table_end e = true /\ _in_table_depth p = 1%nat /\
   _in_table_depth (dispatch p e) = 0%nat /\
   exists t, _current_table p = Some t /\ tables (dispatch p e) = tables p ++ [t]).
Proof.
  destruct e as [tag attrs|tag|data]; handlers.
  - left. repeat case_match; reflexivity.
  - destruct (String.eqb (Chars.lower tag) "table") eqn:Ht.
    + destruct (_in_table_depth p) as [|[|d]] eqn:Hd; [by left| |by left].
      destruct (_current_table p) as [t|] eqn:Hc; [|by left].
      right. simpl. eauto 10.
    + left. repeat case_match; reflexivity.
  - left. repeat case_match; reflexivity.
Qed.

Lemma outer_close_appends q t :
  _in_table_depth q = 1%nat -> _current_table q = Some t ->
  tables (dispatch q (EndTag "table")) = tables q ++ [t].
Proof. intros Hd Hc. handlers. by rewrite Hd, Hc. Qed.





(** *** The table filter *)

Lemma filter_tables_spec parsed min_columns max_tables : forall filtered,
  Z.of_nat (length filtered) < max_tables ->
  filter_tables parsed min_columns max_tables filtered
  = filtered ++
    take (Z.to_nat max_tables - length filtered)
         (List.filter (wide_enough min_columns) parsed).
Proof.
  induction parsed as [|t rest IH]; intros filtered Hlt; cbn [filter_tables].
  - simpl. by rewrite take_nil, app_nil_r.
  - cbn [List.filter]. unfold wide_enough at 1.
    destruct (max_cols t >=? min_columns) eqn:Hw.
    + rewrite Z.geb_leb.
      destruct (Z.leb_spec max_tables (Z.of_nat (length (filtered ++ [t]))))
        as [Hfull|Hfull]; rewrite length_app in Hfull; simpl in Hfull.
      * replace (Z.to_nat max_tables - length filtered)%nat with 1%nat by lia.
        simpl. by rewrite take_0.
      * rewrite IH by (rewrite length_app; simpl; lia).
        rewrite length_app. simpl.
        replace (Z.to_nat max_tables - length filtered)%nat
          with (S (Z.to_nat max_tables - (length filtered + 1)))%nat by lia.
        simpl. by rewrite <- app_assoc.
    + rewrite Z.geb_leb.
      destruct (Z.leb_spec max_tables (Z.of_nat (length filtered))); [lia|].
      by apply IH.
Qed.

(** X8: with a limit of at least one table the filter keeps exactly the
    first [max_tables] tables that are wide enough. *)
Lemma filtered_tables_first_qualifying parsed min_columns max_tables :
  1 <= max_tables ->
  filtered_tables parsed min_columns max_tables
  = first_qualifying parsed min_columns max_tables.
Proof.
  intros Hmax. unfold filtered_tables, first_qualifying.
  rewrite filter_tables_spec by (simpl; lia).
  simpl. by rewrite Nat.sub_0_r.
Qed.

(** C8: with [max_tables = 0] the filter still retains the first table
    when it is wide enough, one more than the stated limit: the limit is
    only tested after a table has been processed. *)
Theorem filtered_tables_limit_zero :
  filtered_tables [ [ ["A"; "B"] ] ] 2 0 = [ [ ["A"; "B"] ] ] /\
  first_qualifying [ [ ["A"; "B"] ] ] 2 0 = [].
Proof. split; reflexivity. Qed.

(** *** Tables written out in full *)

Lemma feed_cells cs : forall p k r,
  _in_table_depth p = S k -> _current_row p = Some r ->
  let q := feed p (concat (map cell_events cs)) in
  _in_table_depth q = S k /\ _current_row q = Some (r ++ map _clean_text cs) /\
  _current_table q = _current_table p /\ tables q = tables p.
Proof.
  induction cs as [|c cs IH]; intros p k r Hd Hr; simpl.
  - by rewrite app_nil_r.
  - set (p1 := handle_endtag (handle_data (handle_starttag p "td" []) c) "td").
    assert (H1 : _in_table_depth p1 = S k /\
                 _current_row p1 = Some (r ++ [_clean_text c]) /\
                 _current_table p1 = _current_table p /\ tables p1 = tables p).
    { subst p1. destruct p as [tb d ct cr ic cb]. simpl in Hd, Hr. subst d cr.
      by repeat split. }
    destruct H1 as (Hd1 & Hr1 & Hc1 & Ht1).
    destruct (IH p1 k _ Hd1 Hr1) as (Hd2 & Hr2 & Hc2 & Ht2).
    change (fold_left dispatch (concat (map cell_events cs)) p1)
      with (feed p1 (concat (map cell_events cs))).
    rewrite Hd2, Hr2, Hc2, Ht2, <- app_assoc. by repeat split.
Qed.

Lemma feed_open_row r p k :
  _in_table_depth p = S k ->
  let q := feed p (open_row_events r) in
  _in_table_depth q = S k /\ _current_row q = Some (map _clean_text r) /\
  _current_table q = _current_table p /\ tables q = tables p.
Proof.
  intros Hd. unfold open_row_events. cbn zeta. rewrite feed_cons.
  set (p1 := dispatch p (StartTag "tr" [])).
  assert (H1 : _in_table_depth p1 = S k /\ _current_row p1 = Some [] /\
               _current_table p1 = _current_table p /\ tables p1 = tables p).
  { subst p1. handlers. by rewrite Hd. }
  destruct H1 as (Hd1 & Hr1 & Hc1 & Ht1).
  destruct (feed_cells r p1 k [] Hd1 Hr1) as (Hd2 & Hr2 & Hc2 & Ht2).
  rewrite Hd2, Hr2, Hc2, Ht2. by repeat split.
Qed.

Lemma feed_rows rs : forall p k t,
  _in_table_depth p = S k -> _current_table p = Some t ->
  let q := feed p (concat (map row_events rs)) in
  _in_table_depth q = S k /\ _current_table q = Some (t ++ cleaned rs) /\
  tables q = tables p.
Proof.
  induction rs as [|r rs IH]; intros p k t Hd Hc; cbn zeta.
  - simpl. by rewrite app_nil_r.
  - change (concat (map row_events (r :: rs)))
      with ((open_row_events r ++ [EndTag "tr"]) ++ concat (map row_events rs)).
    rewrite !feed_app.
    destruct (feed_open_row r p k Hd) as (Hd1 & Hr1 & Hc1 & Ht1).
    set (p1 := feed p (open_row_events r)) in *.
    change (feed p1 [EndTag "tr"]) with (dispatch p1 (EndTag "tr")).
    set (p2 := dispatch p1 (EndTag "tr")).
    assert (H2 : _in_table_depth p2 = S k /\
                 _current_table p2 = Some (t ++ [map _clean_text r]) /\
                 tables p2 = tables p).
    { subst p2. handlers. rewrite Hd1, Hr1, Hc1, Hc. by simpl. }
    destruct H2 as (Hd2 & Hc2 & Ht2).
    destruct (IH p2 k _ Hd2 Hc2) as (Hd3 & Hc3 & Ht3).
    rewrite Hd3, Hc3, Ht3, Ht2, <- app_assoc. by repeat split.
Qed.

Lemma feed_table t p :
  _in_table_depth p = 0%nat ->
  _in_table_depth (feed p (table_events t)) = 0%nat /\
  tables (feed p (table_events t)) = tables p ++ [cleaned t].
Proof.
  intros Hd. unfold table_events. rewrite feed_cons.
  set (p1 := dispatch p (StartTag "table" [])).
  assert (H1 : _in_table_depth p1 = 1%nat /\ _current_table p1 = Some [] /\
               tables p1 = tables p).
  { subst p1. handlers. by rewrite Hd. }
  destruct H1 as (Hd1 & Hc1 & Ht1).
  destruct (feed_rows t p1 0 [] Hd1 Hc1) as (Hd2 & Hc2 & Ht2).
  rewrite feed_app.
  set (p2 := feed p1 (concat (map row_events t))) in *.
  change (feed p2 [EndTag "table"]) with (dispatch p2 (EndTag "table")).
  split.
  - by rewrite (outer_close_depth p2 (EndTag "table")), Hd2.
  - rewrite (outer_close_appends p2 _ Hd2 Hc2). simpl. congruence.
Qed.

Lemma feed_tables ts : forall p,
  _in_table_depth p = 0%nat ->
  _in_table_depth (feed p (concat (map table_events ts))) = 0%nat /\
  tables (feed p (concat (map table_events ts))) = tables p ++ map cleaned ts.
Proof.
  induction ts as [|t ts IH]; intros p Hd.
  - simpl. by rewrite app_nil_r.
  - change (concat (map table_events (t :: ts)))
      with (table_events t ++ concat (map table_events ts)).
    rewrite feed_app.
    destruct (feed_table t p Hd) as [Hd1 Ht1].
    destruct (IH _ Hd1) as [Hd2 Ht2].
    rewrite Hd2, Ht2, Ht1, <- app_assoc. done.
Qed.

(** X1: tables written out in full (a [tr] element per row, a [td]
    element per cell) are read back one by one, in order, with the rows
    and cells of each in order and every cell text cleaned as
    [_clean_text] does, white space above U+007F included. *)
Theorem parse_written_tables (ts : list table) :
  parse (concat (map table_events ts)) = map cleaned ts.
Proof. unfold parse. by destruct (feed_tables ts init eq_refl) as [_ ->]. Qed.

Lemma feed_unterminated rs r :
  exists in_cell buffer,
    feed init (unterminated_table_events rs r)
    = {| tables := [cleaned rs]; _in_table_depth := 0;
         _current_table := None;
         _current_row := Some (map _clean_text r);
         _in_cell := in_cell; _cell_buffer := buffer |}.
Proof.
  unfold unterminated_table_events. rewrite feed_cons.
  set (p1 := dispatch init (StartTag "table" [])).
  destruct (feed_rows rs p1 0 [] eq_refl eq_refl) as (Hd2 & Hc2 & Ht2).
  rewrite feed_app.
  set (p2 := feed p1 (concat (map row_events rs))) in *.
  destruct (feed_open_row r p2 0 Hd2) as (Hd3 & Hr3 & Hc3 & Ht3).
  rewrite feed_app.
  set (p3 := feed p2 (open_row_events r)) in *.
  rewrite Hc2 in Hc3. rewrite Ht2 in Ht3. clearbody p3. clear -Hd3 Hr3 Hc3 Ht3.
  destruct p3 as [tb d ct cr ic cb]. simpl in *. subst.
  by exists ic, cb.
Qed.

(** X2: a row that is still open when its table closes is left out of
    that table, but the parser does not forget it: the row stays in
    [_current_row].  Tables written in full after it are read back as
    they are, the next [tr] tag replacing the pending row; but a [/tr]
    tag met in a later table before any [tr] tag puts the pending row
    into that later table. *)
Theorem unterminated_row_pending (rs : table) (r : row) (ts : list table) :
  parse (unterminated_table_events rs r) = [cleaned rs] /\
  _current_row (feed init (unterminated_table_events rs r))
  = Some (map _clean_text r) /\
  parse (unterminated_table_events rs r ++ concat (map table_events ts))
  = cleaned rs :: map cleaned ts /\
  parse (unterminated_table_events rs r
           ++ [StartTag "table" []; EndTag "tr"; EndTag "table"])
  = [cleaned rs; [map _clean_text r]].
Proof.
  unfold parse. rewrite !feed_app.
  destruct (feed_unterminated rs r) as (ic & cb & ->).
  split; [done|]. split; [done|]. split; [|done].
  by destruct (feed_tables ts
                 {| tables := [cleaned rs]; _in_table_depth := 0;
                    _current_table := None;
                    _current_row := Some (map _clean_text r);
                    _in_cell := ic; _cell_buffer := cb |} eq_refl) as [_ ->].
Qed.

(** *** What every run keeps *)

Lemma dispatch_consistent p e : consistent p -> consistent (dispatch p e).
Proof.
  unfold consistent. destruct p as [tb d ct cr ic cb]. simpl.
  destruct e as [tag attrs|tag|data]; handlers; intros [H1 H2].
  - destruct (String.eqb (Chars.lower tag) "table"); simpl.
    + destruct d; simpl; [done|].
      split; [done|]. intros Hc. by specialize (H2 Hc).
    + destruct d; [done|].
      repeat case_match; simpl; done.
  - destruct (String.eqb (Chars.lower tag) "table"); simpl.
    + destruct d as [|[|d]]; [done| |].
      * destruct ct; simpl; [done|]. by specialize (H2 eq_refl).
      * simpl. split; [done|]. intros Hc. by specialize (H2 Hc).
    + destruct d; [done|].
      repeat case_match; simpl; split; try done.
      all: try (intros Hc; by specialize (H2 Hc)).
  - destruct d; [done|].
    repeat case_match; simpl; done.
Qed.

(** X3: whatever the markup, the parser is inside a table exactly when
    it holds a table being accumulated, so that every close tag bringing
    the depth back to 0 appends a table. *)
Theorem feed_consistent (events : list event) :
  consistent (feed init events) /\
  forall e, is_table_end e = true ->
    _in_table_depth (feed init events) = 1%nat ->
    exists t, tables (feed init (events ++ [e])) = tables (feed init events) ++ [t].
Proof.
  assert (Hcons : forall p, consistent p -> consistent (feed p events)).
  { induction events as [|e rest IH]; intros p Hp; [done|].
    rewrite feed_cons. by apply IH, dispatch_consistent. }
  assert (H0 : consistent init) by done.
  split; [by apply Hcons|].
  intros e He Hd. rewrite feed_app.
  change (feed (feed init events) [e]) with (dispatch (feed init events) e).
  destruct (dispatch_tables (feed init events) e) as [Heq|(_ & _ & _ & t & _ & Ht)];
    [|by eauto].
  destruct (Hcons init H0) as [_ Hnone].
  destruct (_current_table (feed init events)) as [t|] eqn:Hc.
  - exists t. destruct e as [|tag|]; try discriminate.
    handlers. by rewrite He, Hd, Hc.
  - specialize (Hnone eq_refl). congruence.
Qed.

Lemma dispatch_outside p e :
  _in_table_depth p = 0%nat -> is_table_start e = false -> dispatch p e = p.
Proof.
  intros Hd Hs. destruct e as [tag attrs|tag|data]; handlers.
  - by rewrite Hs, Hd.
  - rewrite Hd. by destruct (String.eqb (Chars.lower tag) "table").
  - by rewrite Hd.
Qed.

(** X4: markup without any table-open tag leaves the parser as it was
    created, whatever row tags, cell tags, close tags and text it holds;
    in particular no table is returned. *)
Theorem no_table_tag_no_change (events : list event) :
  Forall (fun e => is_table_start e = false) events ->
  feed init events = init /\ parse events = [].
Proof.
  intros Hall. assert (H : feed init events = init).
  { induction Hall as [|e rest He _ IH]; [done|].
    by rewrite feed_cons, dispatch_outside. }
  split; [done|]. unfold parse. by rewrite H.
Qed.

Lemma no_table_tag_no_change_witness :
  feed init [EndTag "table"; StartTag "tr" []; StartTag "td" []; Data "x";
             EndTag "td"; EndTag "tr"; StartTag "p" []] = init.
Proof.
  apply (no_table_tag_no_change
           [EndTag "table"; StartTag "tr" []; StartTag "td" []; Data "x";
            EndTag "td"; EndTag "tr"; StartTag "p" []]).
  repeat constructor.
Defined.

(** *** Cell text *)

Lemma join_characters s : Chars.join (Chars.characters s) = s.
Proof.
  induction s as [|c r IH]; [done|]. cbn [Chars.characters].
  destruct (Chars.characters r) as [|ch rest]; [by rewrite <- IH|].
  destruct (Chars.head_continues r); by rewrite <- IH.
Qed.

Lemma characters_head d r :
  exists t rest, Chars.characters (String d r) = String d t :: rest.
Proof.
  cbn [Chars.characters].
  destruct (Chars.characters r) as [|ch rest]; [by eexists _, _|].
  destruct (Chars.head_continues r); by eexists _, _.
Qed.

Lemma characters_cut s : Chars.cut (Chars.characters s).
Proof.
  induction s as [|c r IH]; [by split|].
  cbn [Chars.characters].
  destruct r as [|d r']; [by split; repeat constructor|].
  destruct (characters_head d r') as (t & rest & Hch). rewrite Hch in *.
  destruct IH as [Hone Hbeg]. apply Forall_cons in Hone as [Ht Hone].
  simpl in Hbeg, Ht. cbn [Chars.head_continues].
  destruct (Chars.is_continuation d) eqn:Hd; split; simpl.
  - constructor; [|done]. simpl. by rewrite Hd.
  - done.
  - by repeat constructor.
  - constructor; [|done]. simpl. by rewrite Hd.
Qed.

Lemma characters_one t : forall c rest,
  forallb Chars.is_continuation (list_ascii_of_string t) = true ->
  Forall (fun ch => Chars.begins_character ch = true) rest ->
  Chars.characters (Chars.join rest) = rest ->
  Chars.characters (String c (t +:+ Chars.join rest)) = String c t :: rest.
Proof.
  induction t as [|d t IH]; intros c rest Ht Hbeg Hrest.
  - change ("" +:+ Chars.join rest) with (Chars.join rest).
    cbn [Chars.characters]. rewrite Hrest.
    destruct rest as [|ch rest']; [done|].
    apply Forall_cons in Hbeg as [Hch _].
    destruct ch as [|e u]; [done|]. simpl in *.
    apply negb_true_iff in Hch. by rewrite Hch.
  - simpl in Ht. apply andb_true_iff in Ht as [Hd Ht].
    change (String c (String d t +:+ Chars.join rest))
      with (String c (String d (t +:+ Chars.join rest))).
    cbn [Chars.characters]. fold Chars.characters.
    specialize (IH d rest Ht Hbeg Hrest). cbn [Chars.characters] in IH.
    rewrite IH. cbn [Chars.head_continues]. by rewrite Hd.
Qed.

Lemma characters_join l : Chars.cut l -> Chars.characters (Chars.join l) = l.
Proof.
  induction l as [|ch rest IH]; intros [Hone Hbeg]; [done|].
  apply Forall_cons in Hone as [Hch Hone]. simpl in Hbeg.
  destruct ch as [|c t]; [done|]. simpl in Hch.
  apply (characters_one t c rest Hch Hbeg). apply IH. split; [done|].
  destruct rest as [|x rest']; [done|]. by apply Forall_cons in Hbeg as [_ ?].
Qed.

Lemma collapse_begins l : forall b,
  Forall (fun ch => Chars.begins_character ch = true) l ->
  Forall (fun ch => Chars.begins_character ch = true) (Chars.collapse b l).
Proof.
  induction l as [|ch r IH]; intros b Hall; [done|].
  apply Forall_cons in Hall as [Hch Hr]. simpl.
  destruct (Chars.isspace ch); [destruct b|]; auto.
Qed.

Lemma collapse_one l : forall b,
  Forall (fun ch => Chars.one_character ch = true) l ->
  Forall (fun ch => Chars.one_character ch = true) (Chars.collapse b l).
Proof.
  induction l as [|ch r IH]; intros b Hall; [done|].
  apply Forall_cons in Hall as [Hch Hr]. simpl.
  destruct (Chars.isspace ch); [destruct b|]; auto.
Qed.

Lemma collapse_cut l : Chars.cut l -> Chars.cut (Chars.collapse false l).
Proof.
  intros [Hone Hbeg]. split; [by apply collapse_one|].
  destruct l as [|ch r]; [done|]. simpl in *.
  destruct (Chars.isspace ch); simpl; by apply collapse_begins.
Qed.

Lemma lstrip_chars_suffix l : exists k, l = k ++ Chars.lstrip_chars l.
Proof.
  induction l as [|ch r [k Hk]]; [by exists []|]. simpl.
  destruct (Chars.isspace ch); [|by exists []].
  exists (ch :: k). simpl. by rewrite <- Hk.
Qed.

Lemma rstrip_chars_prefix l : exists k, l = Chars.rstrip_chars l ++ k.
Proof.
  induction l as [|ch r [k Hk]]; [by exists []|]. simpl.
  destruct (Chars.rstrip_chars r) as [|x r'].
  - destruct (Chars.isspace ch); [by exists (ch :: r)|].
    exists r. done.
  - exists k. simpl. f_equal. exact Hk.
Qed.

Lemma cut_suffix k l : Chars.cut (k ++ l) -> Chars.cut l.
Proof.
  intros [Hone Hbeg]. apply Forall_app in Hone as [_ Hone]. split; [done|].
  destruct k as [|x k]; [done|]. simpl in Hbeg.
  apply Forall_app in Hbeg as [_ Hbeg]. by destruct l; [|apply Forall_cons in Hbeg as [_ ?]].
Qed.

Lemma cut_prefix l k : Chars.cut (l ++ k) -> Chars.cut l.
Proof.
  intros [Hone Hbeg]. apply Forall_app in Hone as [Hone _]. split; [done|].
  destruct l as [|x l]; [done|]. simpl in *. by apply Forall_app in Hbeg as [? _].
Qed.

Lemma strip_cut l : Chars.cut l -> Chars.cut (Chars.rstrip_chars (Chars.lstrip_chars l)).
Proof.
  intros Hl. destruct (lstrip_chars_suffix l) as [k Hk].
  rewrite Hk in Hl. apply cut_suffix in Hl.
  destruct (rstrip_chars_prefix (Chars.lstrip_chars l)) as [k' Hk'].
  rewrite Hk' in Hl. by apply cut_prefix in Hl.
Qed.

Lemma isspace_space ch :
  Chars.isspace ch = true -> String.eqb ch " " = true -> ch = " ".
Proof. intros _. apply String.eqb_eq. Qed.

Lemma collapse_collapsed l : forall b,
  Chars.collapsed b (Chars.collapse b l) = true.
Proof.
  induction l as [|c r IH]; intros b; simpl; [done|].
  destruct (Chars.isspace c) eqn:Hc.
  - destruct b; [apply IH|]. simpl. apply IH.
  - simpl. rewrite Hc. apply IH.
Qed.

Lemma collapsed_fixed l : forall b,
  Chars.collapsed b l = true -> Chars.collapse b l = l.
Proof.
  induction l as [|c r IH]; intros b; simpl; [done|].
  destruct (Chars.isspace c) eqn:Hc.
  - intros [[Hsp Hb%negb_true_iff]%andb_true_iff Hr]%andb_true_iff. subst b.
    apply String.eqb_eq in Hsp as ->. by rewrite (IH true Hr).
  - intros Hr. by rewrite (IH false Hr).
Qed.

Lemma collapsed_weaken l b :
  Chars.collapsed b l = true -> Chars.collapsed false l = true.
Proof.
  destruct l as [|c r]; simpl; [done|].
  destruct (Chars.isspace c); [|done].
  intros [[-> _]%andb_true_iff ->]%andb_true_iff. done.
Qed.

Lemma collapsed_lstrip l : forall b,
  Chars.collapsed b l = true ->
  Chars.collapsed false (Chars.lstrip_chars l) = true.
Proof.
  induction l as [|c r IH]; intros b; simpl; [done|].
  destruct (Chars.isspace c) eqn:Hc.
  - intros [_ Hr]%andb_true_iff. by apply (IH true).
  - intros Hr. simpl. by rewrite Hc.
Qed.

Lemma collapsed_rstrip l : forall b,
  Chars.collapsed b l = true ->
  Chars.collapsed b (Chars.rstrip_chars l) = true.
Proof.
  induction l as [|c r IH]; intros b; simpl; [done|].
  destruct (Chars.isspace c) eqn:Hc.
  - intros [Hcb Hr]%andb_true_iff. specialize (IH true Hr).
    destruct (Chars.rstrip_chars r); simpl; [done|].
    rewrite Hc, Hcb. exact IH.
  - intros Hr. specialize (IH false Hr).
    destruct (Chars.rstrip_chars r); simpl; by rewrite Hc.
Qed.

Lemma lstrip_no_lead l :
  match Chars.lstrip_chars l with
  | [] => True
  | c :: _ => Chars.isspace c = false
  end.
Proof.
  induction l as [|c r IH]; simpl; [done|].
  destruct (Chars.isspace c) eqn:Hc; [done|]. by simpl.
Qed.

Lemma rstrip_rstrip l :
  Chars.rstrip_chars (Chars.rstrip_chars l) = Chars.rstrip_chars l.
Proof.
  induction l as [|c r IH]; simpl; [done|].
  destruct (Chars.rstrip_chars r) as [|d r'] eqn:Hr.
  - destruct (Chars.isspace c) eqn:Hc; simpl; [done|]. by rewrite Hc.
  - simpl in *. by rewrite IH.
Qed.

Lemma lstrip_rstrip_no_lead l :
  match l with
  | [] => True
  | c :: _ => Chars.isspace c = false
  end ->
  Chars.lstrip_chars (Chars.rstrip_chars l) = Chars.rstrip_chars l.
Proof.
  destruct l as [|c r]; simpl; [done|]. intros Hc.
  destruct (Chars.rstrip_chars r); rewrite ?Hc; simpl; by rewrite Hc.
Qed.

(** A no-break space (U+00A0, bytes C2 A0) between two words and an em
    space (U+2003, bytes E2 80 83) after them. *)
Example clean_text_no_break_space :
  _clean_text
    ("Total" +:+ String (ascii_of_nat 194) (String (ascii_of_nat 160) "assets")
     +:+ String (ascii_of_nat 226)
           (String (ascii_of_nat 128) (String (ascii_of_nat 131) "")))
  = "Total assets".
Proof. vm_compute. reflexivity. Qed.

(** The characters of a cleaned text. *)
Lemma clean_text_characters text :
  let l := Chars.rstrip_chars (Chars.lstrip_chars
             (Chars.collapse false (Chars.characters text))) in
  _clean_text text = Chars.join l /\
  Chars.characters (_clean_text text) = l /\
  Chars.collapsed false l = true /\
  Chars.lstrip_chars l = l /\ Chars.rstrip_chars l = l.
Proof.
  intros l.
  assert (Hcut : Chars.cut (Chars.collapse false (Chars.characters text)))
    by apply collapse_cut, characters_cut.
  assert (Hclean : _clean_text text = Chars.join l).
  { unfold _clean_text, Chars.strip, Chars.collapse_spaces.
    by rewrite (characters_join _ Hcut). }
  split; [done|]. split; [|split; [|split]].
  - rewrite Hclean. apply characters_join, strip_cut, Hcut.
  - apply collapsed_rstrip. apply (collapsed_lstrip _ false).
    apply collapse_collapsed.
  - apply lstrip_rstrip_no_lead, lstrip_no_lead.
  - apply rstrip_rstrip.
Qed.

(** X5: [_clean_text] is idempotent on every text, and its result
    neither starts nor ends with white space and holds no white space
    other than single space characters; white space is that of Python,
    the characters above U+007F included. *)
Theorem clean_text_idempotent (text : string) :
  _clean_text (_clean_text text) = _clean_text text /\
  Chars.collapsed false (Chars.characters (_clean_text text)) = true /\
  Chars.lstrip (_clean_text text) = _clean_text text /\
  Chars.rstrip (_clean_text text) = _clean_text text.
Proof.
  destruct (clean_text_characters text) as (Hj & Hc & Hcol & Hl & Hr).
  set (l := Chars.rstrip_chars _) in *.
  assert (Hfix : Chars.collapse false l = l) by by apply collapsed_fixed.
  split; [|split; [|split]].
  - unfold _clean_text at 1. unfold Chars.strip, Chars.collapse_spaces.
    rewrite Hc, Hfix.
    assert (Hcut : Chars.cut l).
    { rewrite <- Hc. apply characters_cut. }
    by rewrite (characters_join l Hcut), Hl, Hr.
  - by rewrite Hc.
  - unfold Chars.lstrip. by rewrite Hc, Hl.
  - unfold Chars.rstrip. by rewrite Hc, Hr.
Qed.

(** *** Width and filter *)

Lemma max_cols_bound t r : r ∈ t -> Z.of_nat (length r) <= max_cols t.
Proof.
  induction t as [|r' t IH]; [by intros ?%elem_of_nil|].
  intros [->|Hin]%elem_of_cons; simpl; [lia|].
  specialize (IH Hin). lia.
Qed.

(** X6: the width of a table is 0 when it has no row and is otherwise
    the length of one of its rows, no row being longer. *)
Theorem max_cols_is_maximum (t : table) :
  (t = [] -> max_cols t = 0) /\
  (t <> [] -> exists r, r ∈ t /\ max_cols t = Z.of_nat (length r)) /\
  (forall r, r ∈ t -> Z.of_nat (length r) <= max_cols t).
Proof.
  split; [by intros ->|]. split; [|intros r; apply max_cols_bound].
  induction t as [|r t IH]; [done|]. intros _.
  destruct t as [|r' t'].
  - exists r. split; [by left|]. simpl. lia.
  - destruct IH as (r0 & Hin & Hmax); [done|].
    change (max_cols (r :: r' :: t'))
      with (Z.max (Z.of_nat (length r)) (max_cols (r' :: t'))).
    destruct (Z.max_spec (Z.of_nat (length r)) (max_cols (r' :: t')))
      as [[_ ->]|[_ ->]].
    + exists r0. split; [by right|done].
    + exists r. split; [by left|done].
Qed.

Lemma filter_tables_general parsed min_columns max_tables : forall filtered,
  exists kept,
    filter_tables parsed min_columns max_tables filtered = filtered ++ kept /\
    sublist kept parsed /\
    Forall (fun t => min_columns <= max_cols t) kept /\
    Z.of_nat (length (filtered ++ kept))
    <= Z.max (Z.of_nat (length filtered) + 1) max_tables.
Proof.
  induction parsed as [|t rest IH]; intros filtered; cbn [filter_tables].
  - exists []. rewrite app_nil_r. repeat split; [done|constructor|lia].
  - destruct (max_cols t >=? min_columns) eqn:Hw.
    + rewrite Z.geb_leb in *. apply Z.leb_le in Hw.
      destruct (Z.leb_spec max_tables (Z.of_nat (length (filtered ++ [t]))))
        as [Hfull|Hfull].
      * exists [t]. repeat split.
        -- apply sublist_skip, sublist_nil_l.
        -- by repeat constructor.
        -- rewrite length_app in *. simpl in *. lia.
      * destruct (IH (filtered ++ [t])) as (kept & -> & Hsub & Hall & Hlen).
        exists (t :: kept). rewrite <- app_assoc. repeat split.
        -- by apply sublist_skip.
        -- by constructor.
        -- rewrite <- app_assoc in Hlen. simpl in Hlen.
           rewrite !length_app in *. simpl in *. lia.
    + rewrite Z.geb_leb in *.
      destruct (Z.leb_spec max_tables (Z.of_nat (length filtered))) as [Hfull|Hfull].
      * exists []. rewrite app_nil_r. repeat split;
          [apply sublist_nil_l|constructor|lia].
      * destruct (IH filtered) as (kept & -> & Hsub & Hall & Hlen).
        exists kept. repeat split; [by apply sublist_cons|done|done].
Qed.

(** X7: whatever the limits, the tables the filter retains are tables of
    the parser's list in their original order, each at least
    [min_columns] wide, and there are never more than [max_tables] of
    them, or one when [max_tables] is below 1. *)
Theorem filtered_tables_sound (parsed : list table) (min_columns max_tables : Z) :
  sublist (filtered_tables parsed min_columns max_tables) parsed /\
  Forall (fun t => min_columns <= max_cols t)
         (filtered_tables parsed min_columns max_tables) /\
  Z.of_nat (length (filtered_tables parsed min_columns max_tables))
  <= Z.max 1 max_tables.
Proof.
  unfold filtered_tables.
  destruct (filter_tables_general parsed min_columns max_tables [])
    as (kept & -> & Hsub & Hall & Hlen).
  simpl in *. by repeat split.
Qed.

Lemma filtered_tables_first_qualifying_witness :
  filtered_tables [ [ ["a"] ]; [ ["a"; "b"] ]; [ ["c"; "d"; "e"] ]; [ ["f"; "g"] ] ] 2 2
  = [ [ ["a"; "b"] ]; [ ["c"; "d"; "e"] ] ].
Proof.
  rewrite (filtered_tables_first_qualifying
             [ [ ["a"] ]; [ ["a"; "b"] ]; [ ["c"; "d"; "e"] ]; [ ["f"; "g"] ] ] 2 2);
    [reflexivity|lia].
Defined.

End TableFacts.

(** ** The financial statement builder *)

Module FinancialFacts.
Import Py FinancialExtractor.

Example resolve_conflict :
  _parse_unit_series
    (PList [ observation "2023-03-31" 100 "2023-01-10";
             observation "2023-03-31" 120 "2023-02-15" ])
  = Ok [ (PStr "2023-03-31", (PInt 120, PStr "2023-02-15")) ].
Proof. reflexivity. Qed.

Example balance_sheet_assets :
  _generate_statement ["USD"; "shares"]
    (PDict [("Assets", PDict [("units", PDict [("USD", PList
       [ observation "2023-12-31" 500 "2024-02-01";
         observation "2023-12-31" 510 "2024-02-20" ])])])])
    ["Assets"; "Liabilities"]
  = Ok (Some [ [PStr "Date"; PStr "Assets"; PStr "Liabilities"];
               [PStr "2023-12-31"; PInt 510; PStr ""] ]).
Proof. reflexivity. Qed.

Example malformed_graph_aborts :
  extract default_config malformed_graph true = Raise ExtractionError.
Proof. reflexivity. Qed.

(** *** The order on filed dates and date keys *)

Lemma ltb_leb a b : String.ltb a b = negb (String.leb b a).
Proof.
  unfold String.ltb, String.leb. rewrite (String.compare_antisym b a).
  by destruct (String.compare a b).
Qed.

Lemma leb_le a b : String.leb a b = true <-> String.le a b.
Proof. unfold String.le. by rewrite Is_true_true. Qed.

Lemma leb_refl a : String.leb a a = true.
Proof. by apply leb_le. Qed.

Lemma leb_trans a b c :
  String.leb a b = true -> String.leb b c = true -> String.leb a c = true.
Proof. rewrite !leb_le. apply transitivity. Qed.

Lemma ltb_irrefl a : String.ltb a a = false.
Proof. by rewrite ltb_leb, leb_refl. Qed.

Lemma ltb_leb_incl a b : String.ltb a b = true -> String.leb a b = true.
Proof.
  rewrite ltb_leb, negb_true_iff. intros Hba.
  destruct (String.leb_total a b) as [H|H]; congruence.
Qed.

Lemma leb_ltb_trans a b c :
  String.leb a b = true -> String.ltb b c = true -> String.ltb a c = true.
Proof.
  rewrite !ltb_leb, !negb_true_iff. intros Hab Hcb.
  destruct (String.leb c a) eqn:Hca; [|done].
  by rewrite (leb_trans c a b) in Hcb.
Qed.

Lemma ltb_trans a b c :
  String.ltb a b = true -> String.ltb b c = true -> String.ltb a c = true.
Proof. intros Hab. apply leb_ltb_trans. by apply ltb_leb_incl. Qed.

Lemma not_ltb_leb a b : String.ltb a b = false -> String.leb b a = true.
Proof. rewrite ltb_leb, negb_false_iff. done. Qed.

Lemma ltb_empty a : String.ltb a "" = false.
Proof. by destruct a. Qed.

(** *** Series whose keys and filed dates are strings *)

Lemma eq_str a b : eq (PStr a) (PStr b) = String.eqb a b.
Proof. reflexivity. Qed.

Lemma typed_get s d e : typed s -> dict_get (PStr d) s = Some e ->
  exists v f, e = (v, PStr f).
Proof.
  induction 1 as [|kv s (d' & v' & f' & ->) _ IH]; simpl; [done|].
  destruct (String.eqb d' d); [|done].
  intros [= <-]. eauto.
Qed.

Lemma typed_set s d v f : typed s -> typed (dict_set (PStr d) (v, PStr f) s).
Proof.
  induction 1 as [|kv s (d' & v' & f' & ->) Hs IH]; simpl.
  - repeat constructor. by exists d, v, f.
  - destruct (String.eqb d' d); constructor; auto;
      [by exists d', v, f | by exists d', v', f'].
Qed.

Lemma typed_get_set s a b x : typed s ->
  dict_get (PStr a) (dict_set (PStr b) x s)
  = if String.eqb b a then Some x else dict_get (PStr a) s.
Proof.
  induction 1 as [|kv s (d' & v' & f' & ->) Hs IH]; simpl.
  - reflexivity.
  - destruct (String.eqb_spec d' b) as [->|Hb]; simpl.
    + destruct (String.eqb_spec b a); reflexivity.
    + destruct (String.eqb_spec d' a) as [->|Ha].
      * destruct (String.eqb_spec b a); [congruence|reflexivity].
      * apply IH.
Qed.

(** *** One observation *)

(** What [parse_observation] does with an observation record. *)
Lemma parse_observation_record series obs :
  is_observation obs = true -> typed series ->
  parse_observation series obs =
  Ok (if String.eqb (date_key obs) "" then series
      else match dict_get (PStr (date_key obs)) series with
           | None =>
               dict_set (PStr (date_key obs))
                        (val_of obs, PStr (filed_of obs)) series
           | Some (_, PStr f) =>
               if String.ltb f (filed_of obs)
               then dict_set (PStr (date_key obs))
                             (val_of obs, PStr (filed_of obs)) series
               else series
           | Some _ => series
           end).
Proof.
  intros Hobs Hty. destruct obs as [| | | | |d]; try discriminate.
  unfold is_observation, str_or_absent in Hobs.
  unfold parse_observation, date_key, filed_of, val_of, str_field, get, or_.
  simpl.
  destruct (assoc "end" d) as [[| | |e| |]|] eqn:He; try discriminate;
  destruct (assoc "instant" d) as [[| | |i| |]|] eqn:Hi; try discriminate;
  destruct (assoc "filed" d) as [[| | |f| |]|] eqn:Hf; try discriminate;
  clear Hobs; simpl.
  all: repeat match goal with
       | |- context [String.eqb ?x ""] =>
           destruct (String.eqb x "") eqn:?; simpl
       end; try reflexivity.
  all: repeat match goal with
       | |- context [dict_get ?k ?s] =>
           let H := fresh "Hg" in
           destruct (dict_get k s) as [[v0 f0]|] eqn:H; simpl;
           [destruct (typed_get _ _ _ Hty H) as (? & ? & [= -> ->])|]
       end; try reflexivity.
  all: unfold gt; simpl; repeat case_match; try reflexivity.
  all: repeat match goal with
       | H : String.eqb _ "" = true |- _ => apply String.eqb_eq in H; subst
       end.
  all: rewrite ?ltb_empty in *; congruence.
Qed.

(** An observation without a filed date leaves a retained entry alone. *)
Lemma empty_filed_keeps series obs e :
  is_observation obs = true -> filed_of obs = "" ->
  dict_get (PStr (date_key obs)) series = Some e ->
  parse_observation series obs = Ok series.
Proof.
  intros Hobs. destruct obs as [| | | | |d]; try discriminate.
  unfold is_observation, str_or_absent in Hobs.
  unfold parse_observation, date_key, filed_of, val_of, str_field, get, or_.
  simpl.
  destruct (assoc "end" d) as [[| | |e0| |]|] eqn:He; try discriminate;
  destruct (assoc "instant" d) as [[| | |i| |]|] eqn:Hi; try discriminate;
  destruct (assoc "filed" d) as [[| | |f| |]|] eqn:Hf; try discriminate;
  clear Hobs; simpl; intros Hfiled; subst; simpl.
  all: repeat match goal with
       | |- context [String.eqb ?x ""] =>
           destruct (String.eqb x "") eqn:?; simpl
       end; try reflexivity.
  all: intros ->; reflexivity.
Qed.

(** *** The whole loop *)

Lemma for_each_app {S} (body : S -> value -> result S) l1 l2 st :
  for_each body (l1 ++ l2) st
  = (st' ← for_each body l1 st; for_each body l2 st').
Proof.
  revert st. induction l1 as [|x l1 IH]; intros st; simpl; [done|].
  destruct (body st x); simpl; [apply IH|done].
Qed.

Lemma first_latest_snoc l d w o :
  first_latest l d w ->
  (date_key o = d -> String.leb (filed_of o) (filed_of w) = true) ->
  first_latest (l ++ [o]) d w.
Proof.
  intros (l1 & l2 & -> & Hd & H1 & H2) Ho.
  exists l1, (l2 ++ [o]). rewrite <- app_assoc. repeat split; auto.
  intros o' [Hin|Hin]%elem_of_app; [by apply H2|].
  apply list_elem_of_singleton in Hin as ->. exact Ho.
Qed.

Lemma first_latest_all l d w o :
  first_latest l d w -> o ∈ l -> date_key o = d ->
  String.leb (filed_of o) (filed_of w) = true.
Proof.
  intros (l1 & l2 & -> & Hd & H1 & H2) Hin Ho.
  apply elem_of_app in Hin as [Hin|Hin].
  - apply ltb_leb_incl. by apply H1.
  - apply elem_of_cons in Hin as [->|Hin]; [apply leb_refl|by apply H2].
Qed.

Lemma first_latest_in l d w : first_latest l d w -> w ∈ l /\ date_key w = d.
Proof.
  intros (l1 & l2 & -> & Hd & _). split; [|done].
  apply elem_of_app. right. by left.
Qed.

Lemma resolves_nil : resolves [] [].
Proof.
  split; [constructor|]. intros d. simpl. intros _ o Hin.
  by apply elem_of_nil in Hin.
Qed.

Lemma resolves_snoc l s o :
  is_observation o = true -> resolves l s ->
  exists s', parse_observation s o = Ok s' /\ resolves (l ++ [o]) s'.
Proof.
  intros Hobs [Hty Hres].
  rewrite (parse_observation_record s o Hobs Hty).
  eexists; split; [reflexivity|].
  destruct (String.eqb_spec (date_key o) "") as [Hk|Hk].
  { (* no date key: the observation is dropped *)
    split; [done|]. intros d. specialize (Hres d).
    destruct (dict_get (PStr d) s) as [e|].
    - destruct Hres as (Hd & w & Hw & ->). split; [done|].
      exists w. split; [|done]. apply first_latest_snoc; [done|]. congruence.
    - intros Hd o' [Hin|Hin]%elem_of_app; [by apply Hres|].
      apply list_elem_of_singleton in Hin as ->. congruence. }
  pose proof (Hres (date_key o)) as Hcur.
  destruct (dict_get (PStr (date_key o)) s) as [[v0 f0]|] eqn:Hget.
  - destruct Hcur as (_ & w & Hw & [= -> ->]).
    destruct (String.ltb (filed_of w) (filed_of o)) eqn:Hlt.
    + (* a later filing replaces the entry *)
      split; [by apply typed_set|]. intros d.
      rewrite typed_get_set by done.
      destruct (String.eqb_spec (date_key o) d) as [<-|Hne].
      * split; [done|]. exists o. split; [|done].
        exists l, []. repeat split; auto.
        -- intros o' Hin Ho'.
           eapply leb_ltb_trans; [|exact Hlt].
           by eapply first_latest_all.
        -- intros o' Hin. by apply elem_of_nil in Hin.
      * specialize (Hres d).
        destruct (dict_get (PStr d) s) as [e|].
        -- destruct Hres as (Hd & w' & Hw' & ->). split; [done|].
           exists w'. split; [|done]. by apply first_latest_snoc.
        -- intros Hd o' [Hin|Hin]%elem_of_app; [by apply Hres|].
           by apply list_elem_of_singleton in Hin as ->.
    + (* not later: the entry stays *)
      split; [done|]. intros d. specialize (Hres d).
      destruct (dict_get (PStr d) s) as [e|] eqn:Hd'.
      * destruct Hres as (Hd & w' & Hw' & ->). split; [done|].
        exists w'. split; [|done]. apply first_latest_snoc; [done|].
        intros <-. rewrite Hget in Hd'. injection Hd' as _ Hf.
        rewrite <- Hf. by apply not_ltb_leb.
      * intros Hd o' [Hin|Hin]%elem_of_app; [by apply Hres|].
        apply list_elem_of_singleton in Hin as ->. congruence.
  - (* first observation for this date *)
    split; [by apply typed_set|]. intros d.
    rewrite typed_get_set by done.
    destruct (String.eqb_spec (date_key o) d) as [<-|Hne].
    + split; [done|]. exists o. split; [|done].
      exists l, []. repeat split; auto.
      * intros o' Hin Ho'. by destruct (Hcur Hk o' Hin).
      * intros o' Hin. by apply elem_of_nil in Hin.
    + specialize (Hres d).
      destruct (dict_get (PStr d) s) as [e|].
      * destruct Hres as (Hd & w' & Hw' & ->). split; [done|].
        exists w'. split; [|done]. by apply first_latest_snoc.
      * intros Hd o' [Hin|Hin]%elem_of_app; [by apply Hres|].
        by apply list_elem_of_singleton in Hin as ->.
Qed.

(** On a list of observation records [_parse_unit_series] returns, and
    what it returns is the series of the [first_latest] observations. *)
Lemma parse_unit_series_resolves l :
  Forall (fun o => is_observation o = true) l ->
  exists s, _parse_unit_series (PList l) = Ok s /\ resolves l s.
Proof.
  unfold _parse_unit_series. simpl.
  induction l as [|o l IH] using rev_ind; intros Hall.
  - exists []. split; [done|apply resolves_nil].
  - apply Forall_app in Hall as [Hl Ho].
    apply Forall_cons in Ho as [Ho _].
    destruct (IH Hl) as (s & Hs & Hres).
    destruct (resolves_snoc l s o Ho Hres) as (s' & Hs' & Hres').
    exists s'. split; [|done].
    rewrite for_each_app, Hs. simpl. by rewrite Hs'.
Qed.

(** A retained entry is replaced exactly when the new filed date is
    strictly greater. *)
Lemma parse_observation_existing series obs v f :
  is_observation obs = true -> date_key obs <> "" ->
  dict_get (PStr (date_key obs)) series = Some (v, PStr f) ->
  parse_observation series obs =
  Ok (if String.ltb f (filed_of obs)
      then dict_set (PStr (date_key obs)) (val_of obs, PStr (filed_of obs)) series
      else series).
Proof.
  intros Hobs. destruct obs as [| | | | |d]; try discriminate.
  unfold is_observation, str_or_absent in Hobs.
  unfold parse_observation, date_key, filed_of, val_of, str_field, get, or_.
  simpl.
  destruct (assoc "end" d) as [[| | |e0| |]|] eqn:He; try discriminate;
  destruct (assoc "instant" d) as [[| | |i| |]|] eqn:Hi; try discriminate;
  destruct (assoc "filed" d) as [[| | |f0| |]|] eqn:Hf; try discriminate;
  clear Hobs; simpl.
  all: repeat match goal with
       | |- context [String.eqb ?x ""] =>
           destruct (String.eqb x "") eqn:?; simpl
       end.
  all: repeat match goal with
       | H : String.eqb _ "" = true |- _ => apply String.eqb_eq in H; subst
       end; try congruence.
  all: intros _ ->; simpl; unfold gt; simpl; try reflexivity.
  all: rewrite ?ltb_empty; try reflexivity.
  all: by destruct (String.ltb f f0).
Qed.

(** C1: on a list of observation records the resolved series maps every
    date key that occurs to the value and filed date of an observation
    with that key whose filed date is lexicographically greatest among
    the observations sharing the key, and has no entry for a key that
    does not occur; resolving the two USD observations filed 2023-01-10
    (value 100) and 2023-02-15 (value 120) for one date gives 120; and
    an observation with an empty filed date leaves an entry that is
    already retained as it is. *)
Theorem resolve_keeps_latest_filed (l : list value) :
  Forall (fun o => is_observation o = true) l ->
  (exists s, _parse_unit_series (PList l) = Ok s /\
     forall d, d <> "" ->
       ((forall o, o ∈ l -> date_key o <> d) -> dict_get (PStr d) s = None) /\
       (forall o, o ∈ l -> date_key o = d ->
          exists w, w ∈ l /\ date_key w = d /\
            dict_get (PStr d) s = Some (val_of w, PStr (filed_of w)) /\
            forall o', o' ∈ l -> date_key o' = d ->
              String.leb (filed_of o') (filed_of w) = true)) /\
  _extract_series ["USD"; "shares"]
    (PDict [("units", PDict [("USD", PList revised_pair)])])
  = Ok [(PStr "2023-03-31", (PInt 120, PStr "2023-02-15"))] /\
  (forall series obs e,
     is_observation obs = true -> filed_of obs = "" ->
     dict_get (PStr (date_key obs)) series = Some e ->
     parse_observation series obs = Ok series).
Proof.
  intros Hall. split; [|split; [reflexivity|exact empty_filed_keeps]].
  destruct (parse_unit_series_resolves l Hall) as (s & Hs & Hty & Hres).
  exists s. split; [done|]. intros d Hd. specialize (Hres d). split.
  - intros Hnone. destruct (dict_get (PStr d) s) as [e|]; [|done].
    destruct Hres as (_ & w & Hw & _).
    destruct (first_latest_in _ _ _ Hw) as [Hin Hk]. by destruct (Hnone w Hin).
  - intros o Hin Ho. destruct (dict_get (PStr d) s) as [e|].
    + destruct Hres as (_ & w & Hw & ->).
      destruct (first_latest_in _ _ _ Hw) as [Hwin Hk].
      exists w. repeat split; auto.
      intros o' Hin' Ho'. by eapply first_latest_all.
    + by destruct (Hres Hd o Hin).
Qed.

Lemma resolve_keeps_latest_filed_witness :
  Forall (fun o => is_observation o = true) revised_pair /\
  exists s, _parse_unit_series (PList revised_pair) = Ok s /\
    forall d, d <> "" ->
      ((forall o, o ∈ revised_pair -> date_key o <> d) ->
       dict_get (PStr d) s = None) /\
      (forall o, o ∈ revised_pair -> date_key o = d ->
         exists w, w ∈ revised_pair /\ date_key w = d /\
           dict_get (PStr d) s = Some (val_of w, PStr (filed_of w)) /\
           forall o', o' ∈ revised_pair -> date_key o' = d ->
             String.leb (filed_of o') (filed_of w) = true).
Proof.
  assert (H : Forall (fun o => is_observation o = true) revised_pair)
    by (repeat constructor).
  split; [exact H|].
  exact (proj1 (resolve_keeps_latest_filed revised_pair H)).
Defined.

(** C10: on a list of observation records every entry of the resolved
    series comes from the [first_latest] observation of its date key:
    every earlier observation with that key has a strictly smaller filed
    date, every later one a smaller or equal one, so that among
    observations with equal filed dates the first in list order is the
    one retained.  In the loop, an observation whose date key already
    has an entry replaces it exactly when its filed date is strictly
    greater, and never when it is equal. *)
Theorem equal_filed_first_wins (l : list value) :
  Forall (fun o => is_observation o = true) l ->
  (exists s, _parse_unit_series (PList l) = Ok s /\
     forall d e, dict_get (PStr d) s = Some e ->
       exists w, first_latest l d w /\ e = (val_of w, PStr (filed_of w))) /\
  (forall series obs v f,
     is_observation obs = true -> date_key obs <> "" ->
     dict_get (PStr (date_key obs)) series = Some (v, PStr f) ->
     parse_observation series obs =
     Ok (if String.ltb f (filed_of obs)
         then dict_set (PStr (date_key obs))
                       (val_of obs, PStr (filed_of obs)) series
         else series)) /\
  (forall series obs v,
     is_observation obs = true -> date_key obs <> "" ->
     dict_get (PStr (date_key obs)) series = Some (v, PStr (filed_of obs)) ->
     parse_observation series obs = Ok series).
Proof.
  intros Hall. split; [|split].
  - destruct (parse_unit_series_resolves l Hall) as (s & Hs & Hty & Hres).
    exists s. split; [done|]. intros d e He. specialize (Hres d).
    rewrite He in Hres. by destruct Hres as (_ & w & Hw & ->); exists w.
  - exact parse_observation_existing.
  - intros series obs v Hobs Hk Hget.
    rewrite (parse_observation_existing _ _ _ _ Hobs Hk Hget).
    by rewrite ltb_irrefl.
Qed.

Lemma equal_filed_first_wins_witness :
  Forall (fun o => is_observation o = true) same_day_pair /\
  _parse_unit_series (PList same_day_pair)
  = Ok [(PStr "2023-03-31", (PInt 100, PStr "2023-02-15"))] /\
  exists s, _parse_unit_series (PList same_day_pair) = Ok s /\
    forall d e, dict_get (PStr d) s = Some e ->
      exists w, first_latest same_day_pair d w /\
                e = (val_of w, PStr (filed_of w)).
Proof.
  assert (H : Forall (fun o => is_observation o = true) same_day_pair)
    by (repeat constructor).
  split; [exact H|]. split; [reflexivity|].
  exact (proj1 (equal_filed_first_wins same_day_pair H)).
Defined.

(** *** Unit selection *)

Lemma try_preferred_absent units preferred :
  (forall u, u ∈ preferred -> assoc u units = None) ->
  try_preferred (PDict units) preferred = Ok None.
Proof.
  induction preferred as [|u rest IH]; intros Habs; simpl; [done|].
  rewrite (Habs u) by left. simpl. apply IH.
  intros u' Hin. apply Habs. by right.
Qed.

Lemma try_preferred_first units before u after data :
  (forall u', u' ∈ before -> assoc u' units = None) ->
  assoc u units = Some data ->
  try_preferred (PDict units) (before ++ u :: after)
  = (s ← _parse_unit_series data; Ok (Some s)).
Proof.
  induction before as [|u' before IH]; intros Habs Hu; simpl.
  - by rewrite Hu.
  - rewrite (Habs u') by left. simpl. apply IH; [|done].
    intros u'' Hin. apply Habs. by right.
Qed.

Lemma first_nonempty_skip before rest :
  (forall data, data ∈ before -> _parse_unit_series data = Ok []) ->
  first_nonempty (before ++ rest) = first_nonempty rest.
Proof.
  induction before as [|data before IH]; intros Hemp; simpl; [done|].
  rewrite (Hemp data) by left. simpl. apply IH.
  intros data' Hin. apply Hemp. by right.
Qed.

(** C6: for a fact with a units mapping, when some preferred unit is
    present the resolved series is the series of the first preferred
    unit present, in preference order, whatever the other units hold
    (with preference USD, shares, a fact with one USD observation and two
    shares observations resolves to the USD one); when no preferred unit
    is present it is the series of the first unit, in the order of the
    mapping, whose series is not empty, and it is empty when every unit
    gives an empty series. *)
Theorem preferred_unit_first (preferred_units : list string)
    (fact : list (string * value)) (units : list (string * value)) :
  assoc "units" fact = Some (PDict units) ->
  (forall before u after data,
     preferred_units = before ++ u :: after ->
     (forall u', u' ∈ before -> assoc u' units = None) ->
     assoc u units = Some data ->
     _extract_series preferred_units (PDict fact) = _parse_unit_series data) /\
  ((forall u, u ∈ preferred_units -> assoc u units = None) ->
   (forall before u data after s,
      units = before ++ (u, data) :: after ->
      (forall kv, kv ∈ before -> _parse_unit_series (snd kv) = Ok []) ->
      _parse_unit_series data = Ok s -> s <> [] ->
      _extract_series preferred_units (PDict fact) = Ok s) /\
   ((forall kv, kv ∈ units -> _parse_unit_series (snd kv) = Ok []) ->
    _extract_series preferred_units (PDict fact) = Ok [])) /\
  _extract_series ["USD"; "shares"] usd_and_shares_fact
  = Ok [(PStr "2023-12-31", (PInt 500, PStr "2024-02-01"))].
Proof.
  intros Hunits. unfold _extract_series. simpl. rewrite Hunits. simpl.
  split; [|split; [|reflexivity]].
  - intros before u after data -> Habs Hu.
    rewrite (try_preferred_first units before u after data Habs Hu).
    by destruct (_parse_unit_series data).
  - intros Habs. rewrite (try_preferred_absent units preferred_units Habs).
    simpl. split.
    + intros before u data after s -> Hemp Hdata Hne.
      rewrite map_app. rewrite first_nonempty_skip.
      * simpl. rewrite Hdata. simpl. by destruct s.
      * intros data' (kv & -> & Hin)%list_elem_of_fmap. by apply Hemp.
    + intros Hemp.
      rewrite <- (app_nil_r (map snd units)). rewrite first_nonempty_skip; [done|].
      intros data' (kv & -> & Hin)%list_elem_of_fmap. by apply Hemp.
Qed.

Lemma preferred_unit_first_witness :
  assoc "units" [("units", PDict usd_and_shares_units)]
    = Some (PDict usd_and_shares_units) /\
  _extract_series ["USD"; "shares"] usd_and_shares_fact
  = _parse_unit_series (PList [ observation "2023-12-31" 500 "2024-02-01" ]).
Proof.
  split; [reflexivity|].
  apply (proj1 (preferred_unit_first ["USD"; "shares"]
                  [("units", PDict usd_and_shares_units)]
                  usd_and_shares_units eq_refl)
           [] "USD" ["shares"]); [reflexivity| |reflexivity].
  intros u' Hin. by apply elem_of_nil in Hin.
Defined.

(** *** Statement assembly *)

Example two_concept_statement :
  _generate_statement ["USD"; "shares"] two_concept_graph
    ["Assets"; "Goodwill"; "Liabilities"]
  = Ok (Some [ [PStr "Date"; PStr "Assets"; PStr "Goodwill"; PStr "Liabilities"];
               [PStr "2022-12-31"; PInt 400; PStr ""; PStr ""];
               [PStr "2023-12-31"; PInt 510; PStr ""; PInt 200] ]).
Proof. reflexivity. Qed.

Lemma str_keyed_get_set {A} (d : dict A) a b x : str_keyed d ->
  dict_get (PStr a) (dict_set (PStr b) x d)
  = if String.eqb b a then Some x else dict_get (PStr a) d.
Proof.
  induction 1 as [|[k v] d [k' Hk] Hd IH]; simpl in *; subst; simpl.
  - reflexivity.
  - destruct (String.eqb k' b) eqn:Hb; simpl.
    + apply String.eqb_eq in Hb as ->. by destruct (String.eqb b a).
    + rewrite IH.
      destruct (String.eqb k' a) eqn:Ha, (String.eqb b a) eqn:Hba;
        try reflexivity.
      apply String.eqb_eq in Ha as ->. apply String.eqb_eq in Hba as ->.
      by rewrite String.eqb_refl in Hb.
Qed.

Lemma str_keyed_set {A} (d : dict A) b x :
  str_keyed d -> str_keyed (dict_set (PStr b) x d).
Proof.
  induction 1 as [|[k v] d [k' Hk] Hd IH]; simpl in *; subst; simpl.
  - repeat constructor. by exists b.
  - destruct (String.eqb k' b); constructor; eauto.
Qed.

Lemma typed_keys s : typed s ->
  exists ks, dict_keys s = map PStr ks /\
    forall d, d ∈ ks <-> is_Some (dict_get (PStr d) s).
Proof.
  induction 1 as [|kv s (d' & v' & f' & ->) Hs (ks & Hks & Hin)].
  - exists []. split; [done|]. intros d. simpl. split.
    + by intros ?%elem_of_nil.
    + by intros [? ?].
  - exists (d' :: ks). split; [simpl; by rewrite Hks|].
    intros d. simpl. rewrite elem_of_cons, Hin.
    destruct (String.eqb_spec d' d) as [->|Hne].
    + split; [eauto|by left].
    + split; [by intros [?|?]|by right].
Qed.

Lemma existsb_eq_str k ds :
  existsb (eq (PStr k)) (map PStr ds) = true <-> k ∈ ds.
Proof.
  induction ds as [|d ds IH]; simpl.
  - split; [done|by intros ?%elem_of_nil].
  - rewrite orb_true_iff, IH, elem_of_cons, String.eqb_eq. tauto.
Qed.

Lemma set_update_str ks : forall ds,
  NoDup ds ->
  exists ds', set_update (map PStr ds) (map PStr ks) = map PStr ds' /\
    NoDup ds' /\ forall d, d ∈ ds' <-> d ∈ ds \/ d ∈ ks.
Proof.
  unfold set_update.
  induction ks as [|k ks IH]; intros ds Hnd; simpl.
  - exists ds. split; [done|]. split; [done|]. intros d.
    rewrite elem_of_nil. tauto.
  - unfold set_add at 2.
    destruct (existsb (eq (PStr k)) (map PStr ds)) eqn:Hex.
    + apply existsb_eq_str in Hex.
      destruct (IH ds Hnd) as (ds' & -> & Hnd' & Hin).
      exists ds'. split; [done|]. split; [done|]. intros d.
      rewrite Hin, elem_of_cons. split; [tauto|].
      intros [?|[->|?]]; auto.
    + assert (Hk : k ∉ ds).
      { intros Hk%existsb_eq_str. congruence. }
      destruct (IH (ds ++ [k])) as (ds' & Heq & Hnd' & Hin).
      { apply NoDup_app. split; [done|]. split.
        - intros x Hx ->%list_elem_of_singleton. done.
        - apply NoDup_singleton. }
      exists ds'. split.
      { rewrite <- Heq. by rewrite map_app. }
      split; [done|]. intros d.
      rewrite Hin, elem_of_app, list_elem_of_singleton, elem_of_cons. tauto.
Qed.

Lemma ltb_connex a b : String.ltb a b = false -> a <> b -> String.ltb b a = true.
Proof.
  intros Hab Hne. rewrite ltb_leb, negb_true_iff.
  destruct (String.leb a b) eqn:Hle; [|done].
  destruct Hne. apply String.leb_antisym; [done|by apply not_ltb_leb].
Qed.

Lemma insert_sorted_str x : forall l,
  StronglySorted str_lt l -> x ∉ l ->
  exists l', insert_sorted (PStr x) (map PStr l) = Ok (map PStr l') /\
    l' ≡ₚ x :: l /\ StronglySorted str_lt l'.
Proof.
  induction l as [|y r IH]; intros Hs Hx; simpl.
  - exists [x]. repeat split; [done|]. repeat constructor.
  - apply StronglySorted_inv in Hs as [Hr Hy].
    apply not_elem_of_cons in Hx as [Hxy Hxr].
    destruct (String.ltb x y) eqn:Hlt; simpl.
    + exists (x :: y :: r). repeat split; [done|].
      constructor; [by constructor|].
      constructor; [done|].
      eapply Forall_impl; [exact Hy|]. intros z Hz. by eapply ltb_trans.
    + destruct (IH Hr Hxr) as (r' & -> & Hperm & Hs').
      exists (y :: r'). simpl. repeat split.
      * rewrite Hperm. apply Permutation_swap.
      * constructor; [done|]. rewrite Hperm.
        constructor; [|done]. by apply ltb_connex.
Qed.

(** [sorted] on a set of strings: the strictly ascending list of its
    members. *)
Lemma sorted_str ds :
  NoDup ds ->
  exists ds', sorted (map PStr ds) = Ok (map PStr ds') /\
    ds' ≡ₚ ds /\ StronglySorted str_lt ds'.
Proof.
  induction 1 as [|x r Hx Hnd (r' & Hr' & Hperm & Hs)]; simpl.
  - exists []. repeat split; [done|constructor].
  - rewrite Hr'. simpl.
    destruct (insert_sorted_str x r' Hs) as (l' & Hl' & Hperm' & Hs').
    { by rewrite Hperm. }
    exists l'. repeat split; [done| |done].
    by rewrite Hperm', Hperm.
Qed.

(** *** Series of a well-formed fact *)

Lemma parse_unit_data_typed data :
  is_unit_data data = true ->
  exists s, _parse_unit_series data = Ok s /\ typed s.
Proof.
  destruct data as [| | | |l|]; try discriminate. simpl. intros Hall.
  destruct (parse_unit_series_resolves l) as (s & Hs & Hty & _).
  - apply Forall_forall. intros o Hin.
    rewrite forallb_forall in Hall. apply Hall. by apply list_elem_of_In.
  - eauto.
Qed.

Lemma assoc_elem_of {A} k (d : list (string * A)) v :
  assoc k d = Some v -> (k, v) ∈ d.
Proof.
  induction d as [|[k' v'] d IH]; simpl; [done|].
  destruct (String.eqb_spec k' k) as [->|_].
  - intros [= ->]. by left.
  - intros H. right. auto.
Qed.

Lemma try_preferred_typed units preferred :
  (forall kv, kv ∈ units -> is_unit_data (snd kv) = true) ->
  exists r, try_preferred (PDict units) preferred = Ok r /\
    forall s, r = Some s -> typed s.
Proof.
  intros Hwf. induction preferred as [|u rest IH]; simpl.
  - exists None. by split.
  - destruct (assoc u units) as [data|] eqn:Hu; simpl; [|exact IH].
    destruct (parse_unit_data_typed data) as (s & -> & Hty).
    { apply (Hwf (u, data)). by apply assoc_elem_of. }
    simpl. exists (Some s). split; [done|]. by intros ? [= <-].
Qed.

Lemma first_nonempty_typed datas :
  (forall data, data ∈ datas -> is_unit_data data = true) ->
  exists s, first_nonempty datas = Ok s /\ typed s.
Proof.
  induction datas as [|data rest IH]; intros Hwf; simpl.
  - exists []. split; [done|constructor].
  - destruct (parse_unit_data_typed data) as (s & -> & Hty);
      [apply Hwf; by left|]. simpl.
    destruct s as [|e s]; [|by eauto].
    apply IH. intros data' Hin. apply Hwf. by right.
Qed.

Lemma extract_series_typed preferred fact :
  is_fact fact = true ->
  exists s, _extract_series preferred fact = Ok s /\ typed s.
Proof.
  destruct fact as [| | | | |d]; try discriminate. simpl.
  unfold _extract_series. simpl.
  destruct (assoc "units" d) as [[| | | | |units]|] eqn:Hu; try discriminate.
  - intros Hall.
    assert (Hwf : forall kv, kv ∈ units -> is_unit_data (snd kv) = true).
    { intros kv Hin. rewrite forallb_forall in Hall. apply Hall.
      by apply list_elem_of_In. }
    destruct (try_preferred_typed units preferred Hwf) as (r & -> & Hr).
    simpl. destruct r as [s|]; [by eauto|].
    apply first_nonempty_typed.
    intros data (kv & -> & Hin)%list_elem_of_fmap. by apply Hwf.
  - intros _.
    destruct (try_preferred_typed [] preferred) as (r & -> & Hr).
    { by intros kv ?%elem_of_nil. }
    simpl. destruct r as [s|]; [by eauto|].
    simpl. exists []. split; [done|constructor].
Qed.

(** *** The loop over the concepts *)

Lemma collect_series_step preferred g c rest st :
  is_graph_for (c :: rest) (PDict g) = true ->
  typed (resolved preferred (PDict g) c) /\
  collect_series preferred (PDict g) (c :: rest) st
  = collect_series preferred (PDict g) rest
      match resolved preferred (PDict g) c with
      | [] => st
      | _ :: _ =>
          (dict_set (PStr c) (resolved preferred (PDict g) c) (fst st),
           set_update (snd st) (dict_keys (resolved preferred (PDict g) c)))
      end.
Proof.
  simpl. intros [Hc _]%andb_true_iff. unfold resolved. simpl.
  destruct (assoc c g) as [fact|]; simpl.
  - destruct (truthy fact); simpl in *; [|split; [constructor|done]].
    destruct (extract_series_typed preferred fact Hc) as (s & -> & Hty).
    simpl. split; [done|]. by destruct s.
  - split; [constructor|done].
Qed.

Lemma collected_skip preferred us_gaap done cs ds c :
  resolved preferred us_gaap c = [] ->
  collected preferred us_gaap done cs ds ->
  collected preferred us_gaap (done ++ [c]) cs ds.
Proof.
  intros Hc (Hk & Hin & Hout & Hnd & Hds). repeat split; auto.
  - intros c' [Hc'| ->%list_elem_of_singleton]%elem_of_app; [by apply Hin|].
    rewrite Hc. destruct (decide (c ∈ done)) as [Hd|Hd].
    + by rewrite (Hin c Hd).
    + by rewrite Hout.
  - intros c' Hc'. apply Hout. intros ?. apply Hc', elem_of_app. by left.
  - intros (c' & Hc' & Hv)%Hds. exists c'. split; [|done].
    apply elem_of_app. by left.
  - intros (c' & [Hc'| ->%list_elem_of_singleton]%elem_of_app & Hv).
    + apply Hds. eauto.
    + unfold has_value in Hv. rewrite Hc in Hv. by destruct Hv.
Qed.

Lemma collected_add preferred us_gaap done cs ds c :
  typed (resolved preferred us_gaap c) ->
  collected preferred us_gaap done cs ds ->
  exists ds',
    set_update (map PStr ds) (dict_keys (resolved preferred us_gaap c))
    = map PStr ds' /\
    collected preferred us_gaap (done ++ [c])
      (dict_set (PStr c) (resolved preferred us_gaap c) cs) ds'.
Proof.
  intros Hty (Hk & Hin & Hout & Hnd & Hds).
  destruct (typed_keys _ Hty) as (ks & Hks & Hmem).
  destruct (set_update_str ks ds Hnd) as (ds' & Hupd & Hnd' & Hds').
  exists ds'. rewrite Hks. split; [done|]. repeat split; auto.
  - by apply str_keyed_set.
  - intros c' Hc'. rewrite str_keyed_get_set by done.
    destruct (String.eqb_spec c c') as [->|Hne]; [done|].
    apply elem_of_app in Hc' as [Hc'|Hc'%list_elem_of_singleton];
      [by apply Hin|congruence].
  - intros c' Hc'. rewrite str_keyed_get_set by done.
    destruct (String.eqb_spec c c') as [->|Hne].
    + destruct Hc'. apply elem_of_app. right. by left.
    + apply Hout. intros ?. apply Hc', elem_of_app. by left.
  - intros [(c' & Hc' & Hv)%Hds|Hd]%Hds'.
    + exists c'. split; [apply elem_of_app; by left|done].
    + exists c. split; [apply elem_of_app; right; by left|].
      by apply Hmem.
  - intros (c' & [Hc'| ->%list_elem_of_singleton]%elem_of_app & Hv);
      apply Hds'.
    + left. apply Hds. eauto.
    + right. by apply Hmem.
Qed.

Lemma collect_series_collected preferred g : forall concepts done cs ds,
  is_graph_for concepts (PDict g) = true ->
  collected preferred (PDict g) done cs ds ->
  exists cs' ds',
    collect_series preferred (PDict g) concepts (cs, map PStr ds)
    = Ok (cs', map PStr ds') /\
    collected preferred (PDict g) (done ++ concepts) cs' ds'.
Proof.
  induction concepts as [|c rest IH]; intros done cs ds Hwf Hcol.
  - exists cs, ds. rewrite app_nil_r. by split.
  - destruct (collect_series_step preferred g c rest (cs, map PStr ds) Hwf)
      as [Hty ->].
    assert (Hrest : is_graph_for rest (PDict g) = true).
    { simpl in Hwf. by apply andb_true_iff in Hwf as [_ ?]. }
    rewrite (cons_middle c done rest), app_assoc.
    destruct (resolved preferred (PDict g) c) as [|e s0] eqn:Hres.
    + apply IH; [done|]. by apply collected_skip.
    + rewrite <- Hres in *. simpl fst. simpl snd.
      destruct (collected_add preferred (PDict g) done cs ds c Hty Hcol)
        as (ds1 & -> & Hcol1).
      by apply IH.
Qed.

Lemma collected_nil preferred us_gaap : collected preferred us_gaap [] [] [].
Proof.
  repeat split; auto; try constructor.
  - by intros c ?%elem_of_nil.
  - by intros ?%elem_of_nil.
  - by intros (c & ?%elem_of_nil & _).
Qed.

(** C7: for a graph whose listed concepts are absent or well-formed
    facts, and with at least one resolved date, the generated statement
    is the header followed by one row per date of the union of resolved
    dates, the dates strictly ascending in plain string order; each row
    is the date followed by one cell per concept in list order, the cell
    being the resolved value, or the empty string when the concept has
    no value at that date. *)
Theorem statement_rows_by_date (preferred_units : list string)
    (us_gaap : value) (concepts : list string) :
  is_graph_for concepts us_gaap = true ->
  (exists c d, c ∈ concepts /\ has_value preferred_units us_gaap c d) ->
  exists dates,
    _generate_statement preferred_units us_gaap concepts
    = Ok (Some (statement_for preferred_units us_gaap concepts dates)) /\
    StronglySorted str_lt dates /\
    (forall d, d ∈ dates <->
       exists c, c ∈ concepts /\ has_value preferred_units us_gaap c d).
Proof.
  intros Hwf (c0 & d0 & Hc0 & Hv0).
  destruct us_gaap as [| | | | |g]; try discriminate.
  destruct (collect_series_collected preferred_units g concepts [] [] []
              Hwf (collected_nil _ _))
    as (cs & ds & Hcol & Hk & Hin & Hout & Hnd & Hds).
  simpl in Hin, Hds.
  destruct (sorted_str ds Hnd) as (dates & Hsorted & Hperm & Hss).
  assert (Hcol' : collect_series preferred_units (PDict g) concepts ([], [])
                  = Ok (cs, map PStr ds)) by exact Hcol.
  exists dates. unfold _generate_statement.
  rewrite Hcol'. simpl.
  destruct ds as [|d1 ds].
  { exfalso. apply (elem_of_nil d0). apply Hds. eauto. }
  simpl map at 1. cbv iota.
  change (PStr d1 :: map PStr ds) with (map PStr (d1 :: ds)).
  rewrite Hsorted. simpl. split; [|split; [done|]].
  - unfold statement_for. do 3 f_equal. rewrite map_map.
    apply map_ext. intros d. unfold data_row. f_equal.
    apply map_ext_in. intros c Hc%list_elem_of_In.
    unfold cell. rewrite (Hin c Hc).
    by destruct (dict_get (PStr d) (resolved preferred_units (PDict g) c)).
  - intros d. rewrite Hperm. apply Hds.
Qed.

Lemma statement_rows_by_date_witness :
  is_graph_for ["Assets"; "Goodwill"; "Liabilities"] two_concept_graph = true /\
  exists dates,
    _generate_statement ["USD"; "shares"] two_concept_graph
      ["Assets"; "Goodwill"; "Liabilities"]
    = Ok (Some (statement_for ["USD"; "shares"] two_concept_graph
                  ["Assets"; "Goodwill"; "Liabilities"] dates)) /\
    StronglySorted str_lt dates /\
    (forall d, d ∈ dates <->
       exists c, c ∈ ["Assets"; "Goodwill"; "Liabilities"] /\
                 has_value ["USD"; "shares"] two_concept_graph c d).
Proof.
  split; [reflexivity|].
  apply (statement_rows_by_date ["USD"; "shares"] two_concept_graph
           ["Assets"; "Goodwill"; "Liabilities"]); [reflexivity|].
  exists "Assets", "2023-12-31". split; [by left|].
  unfold has_value. simpl. eauto.
Defined.

(** *** Failures while a concept is resolved *)

Lemma bind_ok {A B} (a : A) (f : A -> result B) : mbind f (Ok a) = f a.
Proof. reflexivity. Qed.

Lemma collect_series_raises preferred us_gaap concept fact e :
  get us_gaap concept PNone = Ok fact -> truthy fact = true ->
  _extract_series preferred fact = Raise e ->
  forall concepts st, concept ∈ concepts ->
    exists e', collect_series preferred us_gaap concepts st = Raise e'.
Proof.
  intros Hget Htrue Hraise.
  induction concepts as [|c rest IH]; intros st Hin.
  - by apply elem_of_nil in Hin.
  - simpl. destruct (decide (c = concept)) as [->|Hne].
    + rewrite Hget. simpl. rewrite Htrue. simpl. rewrite Hraise. simpl. eauto.
    + apply elem_of_cons in Hin as [?|Hin]; [congruence|].
      destruct (get us_gaap c PNone) as [fact_c|e0]; simpl; [|eauto].
      destruct (truthy fact_c); simpl; [|by apply IH].
      destruct (_extract_series preferred fact_c) as [[|? ?]|e0]; simpl;
        [by apply IH|by apply IH|eauto].
Qed.

Lemma generate_statement_raises preferred us_gaap concept fact e concepts :
  get us_gaap concept PNone = Ok fact -> truthy fact = true ->
  _extract_series preferred fact = Raise e ->
  concept ∈ concepts ->
  exists e', _generate_statement preferred us_gaap concepts = Raise e'.
Proof.
  intros Hget Htrue Hraise Hin. unfold _generate_statement.
  destruct (collect_series_raises preferred us_gaap concept fact e
              Hget Htrue Hraise concepts ([], []) Hin) as [e' ->].
  simpl. eauto.
Qed.

Lemma generate_all_raises preferred us_gaap concept fact e :
  get us_gaap concept PNone = Ok fact -> truthy fact = true ->
  _extract_series preferred fact = Raise e ->
  forall stmts generated,
    (exists code concepts, (code, concepts) ∈ stmts /\ concept ∈ concepts) ->
    exists e', generate_all preferred us_gaap stmts generated = Raise e'.
Proof.
  intros Hget Htrue Hraise.
  induction stmts as [|[code cs] rest IH];
    intros generated (code' & cs' & Hin & Hc).
  - by apply elem_of_nil in Hin.
  - simpl. apply elem_of_cons in Hin as [[= <- <-]|Hin].
    + destruct (generate_statement_raises preferred us_gaap concept fact e
                  cs' Hget Htrue Hraise Hc) as [e' ->].
      simpl. eauto.
    + destruct (_generate_statement preferred us_gaap cs) as [csv|e0];
        simpl; [|eauto].
      apply IH. eauto.
Qed.

(** C4 (as stated) fails: a list in place of the units mapping of
    [Revenues] aborts the extraction of [malformed_graph], sound
    [Assets] included. *)
Lemma malformed_concept_aborts_batch :
  ~ batch_survives default_config malformed_graph.
Proof. intros [r Hr]. vm_compute in Hr. discriminate. Qed.

(** C4 (amended): a concept of one of the three statements whose series
    resolution raises (units that are not a mapping, an observation that
    is not a record) is not isolated: the exception leaves
    [_generate_statement] for every concept list that holds the concept,
    and [extract] re-raises it as [ExtractionError], so the whole batch
    is aborted. *)
Theorem concept_failure_aborts (config : Config) (facts us_gaap : value)
    (save_raw : bool) (concept : string) (fact : value) (e : exn) :
  us_gaap_facts facts = Ok us_gaap ->
  concept ∈ income_statement_concepts config ++
            balance_sheet_concepts config ++ cash_flow_concepts config ->
  get us_gaap concept PNone = Ok fact ->
  truthy fact = true ->
  _extract_series (preferred_units config) fact = Raise e ->
  extract config facts save_raw = Raise ExtractionError /\
  forall concepts, concept ∈ concepts ->
    exists e', _generate_statement (preferred_units config) us_gaap concepts
               = Raise e'.
Proof.
  intros Hus Hin Hget Htrue Hraise. split.
  - unfold extract. rewrite Hus, bind_ok.
    destruct (generate_all_raises (preferred_units config) us_gaap concept
                fact e Hget Htrue Hraise (statements config) [])
      as [e' ->]; [|done].
    unfold statements.
    apply elem_of_app in Hin as [Hin|[Hin|Hin]%elem_of_app].
    + exists "IS", (income_statement_concepts config). split; [by left|done].
    + exists "BS", (balance_sheet_concepts config).
      split; [right; by left|done].
    + exists "CF", (cash_flow_concepts config).
      split; [right; right; by left|done].
  - intros concepts Hc.
    by eapply generate_statement_raises.
Qed.

Lemma concept_failure_aborts_witness :
  extract default_config malformed_graph true = Raise ExtractionError /\
  forall concepts, "Revenues" ∈ concepts ->
    exists e',
      _generate_statement ["USD"; "shares"]
        (PDict
           [ ("Revenues", PDict [("units", PList [PStr "USD"])]);
             ("Assets", PDict [("units", PDict
                [("USD", PList [observation "2023-12-31" 500 "2024-02-01"])])]) ])
        concepts
      = Raise e'.
Proof.
  apply (concept_failure_aborts default_config malformed_graph _ true
           "Revenues" (PDict [("units", PList [PStr "USD"])]) TypeError);
    [reflexivity| |reflexivity|reflexivity|reflexivity].
  by left.
Defined.

(** *** The statements [extract] returns *)

Lemma insert_sorted_length x : forall l l',
  insert_sorted x l = Ok l' -> length l' = S (length l).
Proof.
  induction l as [|y r IH]; intros l'; simpl.
  - by intros [= <-].
  - destruct (lt x y) as [[]|]; simpl; [by intros [= <-]| |done].
    destruct (insert_sorted x r) as [r'|] eqn:Hr; simpl; [|done].
    intros [= <-]. simpl. by rewrite (IH r' eq_refl).
Qed.

Lemma sorted_length : forall l l', sorted l = Ok l' -> length l' = length l.
Proof.
  induction l as [|x r IH]; intros l'; simpl.
  - by intros [= <-].
  - destruct (sorted r) as [r'|] eqn:Hr; simpl; [|done].
    intros ->%insert_sorted_length. by rewrite (IH r' eq_refl).
Qed.

Lemma generate_statement_shape preferred us_gaap concepts rows :
  _generate_statement preferred us_gaap concepts = Ok (Some rows) ->
  exists data,
    rows = (PStr "Date" :: map PStr concepts) :: data /\ data <> [] /\
    Forall (fun row => length row = S (length concepts)) data.
Proof.
  unfold _generate_statement.
  destruct (collect_series preferred us_gaap concepts ([], []))
    as [[cs ds]|]; simpl; [|done].
  destruct ds as [|d ds]; [done|].
  destruct (sorted (d :: ds)) as [dates|] eqn:Hs; simpl; [|done].
  intros [= <-]. eexists. split; [done|]. split.
  - apply sorted_length in Hs. by destruct dates.
  - apply Forall_forall. intros row (date & -> & _)%list_elem_of_fmap.
    unfold data_row. simpl. by rewrite !length_map.
Qed.

Lemma generate_all_shape preferred us_gaap stmts : forall acc out,
  generate_all preferred us_gaap stmts acc = Ok out ->
  exists new,
    out = acc ++ new /\
    sublist (map fst new) (map fst stmts) /\
    forall code rows, (code, rows) ∈ new ->
      exists concepts, (code, concepts) ∈ stmts /\
        _generate_statement preferred us_gaap concepts = Ok (Some rows).
Proof.
  induction stmts as [|[code concepts] rest IH]; intros acc out; simpl.
  - intros [= <-]. exists []. rewrite app_nil_r.
    split; [done|]. split; [constructor|]. by intros ?? ?%elem_of_nil.
  - destruct (_generate_statement preferred us_gaap concepts)
      as [[rows|]|] eqn:Hg; simpl; [| |done]; intros Hout;
      destruct (IH _ _ Hout) as (new & -> & Hsub & Hall).
    + exists ((code, rows) :: new). rewrite <- app_assoc. split; [done|].
      split; [by constructor|].
      intros code' rows' [[= -> ->]|Hin]%elem_of_cons.
      * exists concepts. split; [by left|done].
      * destruct (Hall _ _ Hin) as (cs & ? & ?). exists cs. split; [by right|done].
    + exists new. split; [done|]. split; [by constructor|].
      intros code' rows' Hin.
      destruct (Hall _ _ Hin) as (cs & ? & ?). exists cs. split; [by right|done].
Qed.

(** X19: whatever the company facts hold, a result of [extract] has at
    most three statements, in the order IS, BS, CF, and counts them;
    each one is a table with a header, [Date] and then the concepts of
    the statement, at least one data row, and as many cells in every data
    row as in the header: a statement without a date is not returned. *)
Theorem extract_statements_shape (config : Config) (facts : value)
    (save_raw : bool) (r : extraction) :
  extract config facts save_raw = Ok r ->
  statement_count r = length (generated r) /\
  raw_json r = save_raw /\
  sublist (map fst (generated r)) ["IS"; "BS"; "CF"] /\
  forall code rows, (code, rows) ∈ generated r ->
    exists concepts data,
      (code, concepts) ∈ statements config /\
      rows = (PStr "Date" :: map PStr concepts) :: data /\ data <> [] /\
      Forall (fun row => length row = S (length concepts)) data.
Proof.
  unfold extract.
  destruct (us_gaap_facts facts) as [us_gaap|]; [rewrite bind_ok|done].
  destruct (generate_all (preferred_units config) us_gaap (statements config) [])
    as [out|] eqn:Hg; [rewrite bind_ok|done].
  intros [= <-]. simpl.
  destruct (generate_all_shape _ _ _ _ _ Hg) as (new & -> & Hsub & Hall).
  repeat split; [done|].
  intros code rows Hin. destruct (Hall _ _ Hin) as (concepts & Hc & Hgen).
  destruct (generate_statement_shape _ _ _ _ Hgen) as (data & ? & ? & ?).
  by exists concepts, data.
Qed.

Lemma extract_statements_shape_witness :
  let rows :=
    [ [PStr "Date"; PStr "Assets"; PStr "Liabilities"];
      [PStr "2022-12-31"; PInt 400; PStr ""];
      [PStr "2023-12-31"; PInt 510; PInt 200] ] in
  1%nat = length [("BS", rows)] /\
  true = true /\
  sublist (map fst [("BS", rows)]) ["IS"; "BS"; "CF"] /\
  forall code rows', (code, rows') ∈ [("BS", rows)] ->
    exists concepts data,
      (code, concepts) ∈ [("IS", ["Revenues"]);
                          ("BS", ["Assets"; "Liabilities"]);
                          ("CF", ["PaymentsOfDividends"])] /\
      rows' = (PStr "Date" :: map PStr concepts) :: data /\ data <> [] /\
      Forall (fun row => length row = S (length concepts)) data.
Proof.
  intros rows.
  apply (extract_statements_shape
           {| preferred_units := ["USD"; "shares"];
              income_statement_concepts := ["Revenues"];
              balance_sheet_concepts := ["Assets"; "Liabilities"];
              cash_flow_concepts := ["PaymentsOfDividends"] |}
           balance_sheet_only_facts true
           {| generated := [("BS", rows)]; raw_json := true;
              statement_count := 1 |}).
  vm_compute. reflexivity.
Defined.

(** *** Custom concepts *)




(** *** Graphs without the listed concepts *)

Lemma collect_series_unreported preferred g concepts st :
  (forall c, c ∈ concepts -> reported g c = false) ->
  collect_series preferred (PDict g) concepts st = Ok st.
Proof.
  induction concepts as [|c rest IH]; intros Hun; [done|].
  cbn [collect_series get]. rewrite bind_ok.
  pose proof (Hun c ltac:(left)) as Hc. unfold reported in Hc.
  replace (match assoc c g with Some v => v | None => PNone end)
    with (default PNone (assoc c g)) by by destruct (assoc c g).
  rewrite Hc. cbn [negb]. apply IH. intros c' Hc'. apply Hun. by right.
Qed.

Lemma generate_statement_unreported preferred g concepts :
  (forall c, c ∈ concepts -> reported g c = false) ->
  _generate_statement preferred (PDict g) concepts = Ok None.
Proof.
  intros Hun. unfold _generate_statement.
  by rewrite (collect_series_unreported preferred g concepts _ Hun).
Qed.

(** X21: when the facts mapping used as the US-GAAP graph reports none
    of the concepts of the three statements, [extract] does not fail: it
    returns no statement and a count of zero.  This is what a filer that
    reports under another taxonomy only gets, the whole [facts] mapping
    standing in for the absent [us-gaap] one. *)
Theorem unreported_concepts_no_statement (config : Config) (facts : value)
    (g : list (string * value)) (save_raw : bool) :
  us_gaap_facts facts = Ok (PDict g) ->
  (forall c, c ∈ listed_concepts config -> reported g c = false) ->
  extract config facts save_raw
  = Ok {| generated := []; raw_json := save_raw; statement_count := 0 |}.
Proof.
  intros Hus Hun. unfold extract. rewrite Hus, bind_ok.
  unfold statements, listed_concepts in *. cbn [generate_all].
  rewrite !generate_statement_unreported; [done|..];
    intros c Hc; apply Hun; rewrite !elem_of_app; auto.
Qed.

Lemma unreported_concepts_no_statement_witness :
  extract default_config ifrs_only_facts true
  = Ok {| generated := []; raw_json := true; statement_count := 0 |}.
Proof.
  apply (unreported_concepts_no_statement default_config ifrs_only_facts
           [("ifrs-full", PDict
              [("Assets", PDict [("units", PDict
                 [("EUR", PList [observation "2023-12-31" 500 "2024-02-01"])])])])]
           true).
  - reflexivity.
  - intros c Hc. vm_compute in Hc.
    repeat (apply elem_of_cons in Hc as [->|Hc]; [reflexivity|]).
    by apply elem_of_nil in Hc.
Defined.

(** X22: [extract_custom_concepts] has no check for missing facts: on
    company facts whose [facts] member is absent or an empty mapping,
    where [extract] raises [ExtractionError], it returns [None] like for
    a company that reports none of the concepts asked for. *)
Theorem custom_concepts_empty_facts (config : Config)
    (d : list (string * value)) (concepts : list string) (save_raw : bool) :
  default (PDict []) (assoc "facts" d) = PDict [] ->
  extract config (PDict d) save_raw = Raise ExtractionError /\
  extract_custom_concepts config (PDict d) concepts true = Ok None.
Proof.
  intros Hd.
  assert (Hget : get (PDict d) "facts" (PDict []) = Ok (PDict [])).
  { unfold get. rewrite <- Hd. by destruct (assoc "facts" d). }
  split.
  - unfold extract, us_gaap_facts. by rewrite Hget.
  - unfold extract_custom_concepts. rewrite Hget, bind_ok.
    change (reraise_as_extraction_error
              (_generate_statement (preferred_units config) (PDict []) concepts)
            = Ok None).
    by rewrite generate_statement_unreported.
Qed.

Lemma custom_concepts_empty_facts_witness :
  extract default_config (PDict [("cik", PInt 1234)]) true
  = Raise ExtractionError /\
  extract_custom_concepts default_config (PDict [("cik", PInt 1234)])
    ["Assets"] true = Ok None.
Proof.
  apply (custom_concepts_empty_facts default_config [("cik", PInt 1234)]
           ["Assets"] true).
  reflexivity.
Defined.

End FinancialFacts.

(** ** The section segmenter *)

Module SectionFacts.
Import Py SectionExtractor.

Example header_match :
  match_header "  Item 1A. Risk Factors" = Some (23%nat, "1A", "Risk Factors").
Proof. reflexivity. Qed.

Example html_to_text_style (f : string -> string) :
  _html_to_text f page_with_style = " Hello" +:+ String LF "".
Proof. reflexivity. Qed.

Example html_to_text_script (f : string -> string) :
  _html_to_text f page_with_script = " var x = 1; Hello" +:+ String LF "".
Proof. reflexivity. Qed.

Example find_sections_two (f : string -> string) :
  _find_sections
    ("Intro" +:+ String LF "Item 1. Business" +:+ String LF "We sell."
     +:+ String LF "ITEM 1A Risk" +:+ String LF "Many.")
  = [("1", "Business", "We sell."); ("1A", "Risk", "Many.")].
Proof. reflexivity. Qed.

Example header_spans_lines :
  finditer (String LF (String LF "Item 1" +:+ String LF (String LF "foo")))
  = [ {| m_start := 0; m_end := 13; group1 := "1"; group2 := "foo" |} ].
Proof. reflexivity. Qed.

Example header_needs_line_start : finditer "x item 1" = [].
Proof. reflexivity. Qed.

Example tags_replaced : re_sub match_tag " " 0 "<<a>b<>c<d" = " b<>c<d".
Proof. reflexivity. Qed.

Example unclosed_script_kept :
  re_sub (match_block "<script" "</script>") " " 0
         "a<SCRIPT x>1</script>b<script>2"
  = "a b<script>2".
Proof. reflexivity. Qed.

Example extract_two_sections :
  extract (fun s => s)
    (RegularFile 62
       (Some "<p>Item 1. Business</p><p>We sell.</p><p>ITEM 1A Risk</p>Many."))
    true
  = Ok {| sections := [ (PStr "1", "Item_1.md"); (PStr "1A", "Item_1A.md") ];
          index_file := Some "sections_index.md";
          section_count := 2 |}.
Proof. reflexivity. Qed.

(** C3: the text of a script element survives the conversion: in
    [page_with_script] the tags of the script element are stripped like
    any other tag and its text [var x = 1;] is part of the plain text,
    while the text of a style element is removed with its block. *)
Theorem script_text_survives (replace_charrefs : string -> string) :
  _html_to_text replace_charrefs page_with_script
  = " var x = 1; Hello" +:+ String LF "" /\
  find_ci "var x = 1;" (_html_to_text replace_charrefs page_with_script)
  = Some 1%nat /\
  _html_to_text replace_charrefs page_with_style = " Hello" +:+ String LF "".
Proof. repeat split. Qed.




(** *** Where the header matches lie *)

Lemma span_length p s a b :
  span p s = (a, b) -> String.length s = (String.length a + String.length b)%nat.
Proof.
  revert a b. induction s as [|c r IH]; intros a b; simpl.
  - by intros [= <- <-].
  - destruct (p c).
    + destruct (span p r) as [a' b'] eqn:Hr. intros [= <- <-]. simpl.
      by rewrite (IH a' b' eq_refl).
    + by intros [= <- <-].
Qed.

Lemma strip_prefix_ci_length pat : forall s r,
  strip_prefix_ci pat s = Some r ->
  String.length s = (String.length pat + String.length r)%nat.
Proof.
  induction pat as [|p pat IH]; intros s r; simpl.
  - by intros [= ->].
  - destruct s as [|c s]; [done|].
    destruct (Ascii.eqb p (Chars.lower_ascii c)); [|done].
    intros H. simpl. by rewrite (IH s r H).
Qed.

Lemma match_header_length s n g1 g2 :
  match_header s = Some (n, g1, g2) -> (1 <= n <= String.length s)%nat.
Proof.
  unfold match_header.
  destruct (span Chars.isspace_ascii s) as [ws0 s1] eqn:H0.
  destruct (strip_prefix_ci "item" s1) as [s2|] eqn:H1; [|done].
  destruct (span Chars.isspace_ascii s2) as [gap s3] eqn:H2.
  destruct (span Chars.isdigit s3) as [digits s4] eqn:H3.
  destruct gap as [|g gap]; [done|]. destruct digits as [|d digits]; [done|].
  set (lr := match s4 with
             | EmptyString => (EmptyString, s4)
             | String c r =>
                 if isalpha c then (String c EmptyString, r) else (EmptyString, s4)
             end).
  assert (Hlr : (String.length (snd lr) <= String.length s4)%nat).
  { subst lr. destruct s4 as [|c r]; [done|]. destruct (isalpha c); simpl; lia. }
  destruct lr as [letter s5]. simpl in Hlr.
  set (s6 := match s5 with String "."%char r => r | _ => s5 end).
  assert (H6 : (String.length s6 <= String.length s5)%nat).
  { subst s6. destruct s5 as [|c r]; [done|].
    destruct (Ascii.eqb_spec c "."%char) as [->|Hne]; [simpl; lia|].
    assert (match String c r with String "."%char r0 => r0 | _ => String c r end
            = String c r) as ->; [|done].
    destruct c as [[] [] [] [] [] [] [] []]; try done. }
  destruct (span Chars.isspace_ascii s6) as [ws2 s7] eqn:H7.
  destruct (span (fun c => negb (is_lf c)) s7) as [title s8] eqn:H8.
  intros [= <- _ _].
  apply span_length in H0, H2, H3, H7, H8.
  apply strip_prefix_ci_length in H1. simpl in *. lia.
Qed.

(** *** Item identifiers and their sort keys *)

Lemma span_all p s a b : span p s = (a, b) -> all_chars p a = true.
Proof.
  revert a b. induction s as [|c r IH]; intros a b; simpl.
  - by intros [= <- <-].
  - destruct (p c) eqn:Hc.
    + destruct (span p r) as [a' b'] eqn:Hr. intros [= <- <-].
      unfold all_chars. simpl. rewrite Hc. exact (IH a' b' eq_refl).
    + by intros [= <- <-].
Qed.

Lemma span_stop p a b :
  all_chars p a = true ->
  match b with String c _ => p c = false | EmptyString => True end ->
  span p (a +:+ b) = (a, b).
Proof.
  unfold all_chars. induction a as [|c a IH]; simpl.
  - intros _ Hb. destruct b as [|c r]; [done|]. simpl. by rewrite Hb.
  - intros [Hc Ha]%andb_true_iff Hb. by rewrite Hc, (IH Ha Hb).
Qed.

Lemma upper_digit c : Chars.isdigit c = true -> Chars.upper_ascii c = c.
Proof. destruct c as [[] [] [] [] [] [] [] []]; by vm_compute. Qed.

Lemma upper_alpha c : isalpha c = true -> is_upper (Chars.upper_ascii c) = true.
Proof. destruct c as [[] [] [] [] [] [] [] []]; by vm_compute. Qed.

Lemma upper_not_digit c : is_upper c = true -> Chars.isdigit c = false.
Proof. destruct c as [[] [] [] [] [] [] [] []]; by vm_compute. Qed.

Lemma upper_append a b : Chars.upper (a +:+ b) = Chars.upper a +:+ Chars.upper b.
Proof. induction a as [|c a IH]; simpl; [done|]. by rewrite IH. Qed.

Lemma upper_digits a : all_chars Chars.isdigit a = true -> Chars.upper a = a.
Proof.
  unfold all_chars. induction a as [|c a IH]; simpl; [done|].
  intros [Hc Ha]%andb_true_iff. by rewrite (upper_digit c Hc), (IH Ha).
Qed.

Lemma match_header_group1 s n g1 g2 :
  match_header s = Some (n, g1, g2) -> is_item_id (Chars.upper g1).
Proof.
  unfold match_header.
  destruct (span Chars.isspace_ascii s) as [ws0 s1].
  destruct (strip_prefix_ci "item" s1) as [s2|]; [|done].
  destruct (span Chars.isspace_ascii s2) as [gap s3].
  destruct (span Chars.isdigit s3) as [digits s4] eqn:H3.
  destruct gap as [|g gap]; [done|]. destruct digits as [|d digits]; [done|].
  apply span_all in H3.
  assert (Hletter : forall letter s5,
            match s4 with
            | EmptyString => (EmptyString, s4)
            | String c r =>
                if isalpha c then (String c EmptyString, r) else (EmptyString, s4)
            end = (letter, s5) ->
            letter = "" \/ exists c, letter = String c "" /\ isalpha c = true).
  { intros letter s5. destruct s4 as [|c r]; [intros [= <- _]; by left|].
    destruct (isalpha c) eqn:Hc; intros [= <- _]; [right; eauto|by left]. }
  destruct (match s4 with
            | EmptyString => (EmptyString, s4)
            | String c r =>
                if isalpha c then (String c EmptyString, r) else (EmptyString, s4)
            end) as [letter s5] eqn:Hl.
  specialize (Hletter letter s5 eq_refl).
  destruct (span Chars.isspace_ascii _) as [ws2 s7].
  destruct (span (fun c => negb (is_lf c)) s7) as [title s8].
  intros [= _ <- _].
  exists (String d digits), (Chars.upper letter).
  rewrite upper_append, (upper_digits _ H3). repeat split; [done|done|].
  destruct Hletter as [->|(c & -> & Hc)]; [by left|].
  right. exists (Chars.upper_ascii c). split; [done|]. by apply upper_alpha.
Qed.

Lemma finditer_from_header s : forall pos bol skip m,
  m ∈ finditer_from pos bol skip s ->
  exists s' n, match_header s' = Some (n, group1 m, group2 m).
Proof.
  induction s as [|c r IH]; intros pos bol skip m; simpl.
  - by intros ?%elem_of_nil.
  - destruct skip as [|k]; [|by apply IH].
    destruct bol; [|by apply IH].
    destruct (match_header (String c r)) as [[[n g1] g2]|] eqn:Hm; [|by apply IH].
    intros [->|Hin]%elem_of_cons; [by eauto|by eapply IH].
Qed.

Lemma build_sections_match text ms : forall item_id title content,
  (item_id, title, content) ∈ build_sections text ms ->
  exists m, m ∈ ms /\ item_id = Chars.upper (group1 m) /\
            title = Chars.strip (group2 m).
Proof.
  induction ms as [|m rest IH]; intros item_id title content; simpl.
  - by intros ?%elem_of_nil.
  - intros [[= -> -> ->]|Hin]%elem_of_cons.
    + exists m. split; [by left|done].
    + destruct (IH _ _ _ Hin) as (m' & Hm' & ? & ?).
      exists m'. split; [by right|done].
Qed.

Lemma sort_key_item_id digits letter :
  digits <> "" -> all_chars Chars.isdigit digits = true ->
  (letter = "" \/ exists c, letter = String c "" /\ is_upper c = true) ->
  _sort_key (digits +:+ letter) = (int_of_digits 0 digits, letter).
Proof.
  intros Hne Hd Hl. unfold _sort_key. rewrite (span_stop _ digits letter Hd).
  - destruct digits as [|d digits]; [done|].
    destruct Hl as [->|(c & -> & Hc)]; [done|]. by rewrite Hc.
  - destruct Hl as [->|(c & -> & Hc)]; [done|]. by apply upper_not_digit.
Qed.

(** X13: on a text of ASCII characters, every item identifier
    [_find_sections] returns is a non-empty string of ASCII digits
    followed by at most one upper-case ASCII letter; and when the digits
    are no more than 4300, [_sort_key] maps the identifier to the number
    its digits write and that letter: the fall-back key [(0, item_id)]
    is not used for an extracted identifier. *)
Theorem find_sections_item_ids (text item_id title content : string) :
  Chars.is_ascii text = true ->
  (item_id, title, content) ∈ _find_sections text ->
  exists digits letter,
    item_id = digits +:+ letter /\ digits <> "" /\
    all_chars Chars.isdigit digits = true /\
    (letter = "" \/ exists c, letter = String c "" /\ is_upper c = true) /\
    ((String.length digits <= 4300)%nat ->
     _sort_key item_id = (int_of_digits 0 digits, letter)).
Proof.
  unfold _find_sections. intros _ Hin.
  assert (Hb : (item_id, title, content) ∈ build_sections text (finditer text)).
  { destruct (finditer text); [by apply elem_of_nil in Hin|done]. }
  destruct (build_sections_match _ _ _ _ _ Hb) as (m & Hm & -> & _).
  destruct (finditer_from_header _ _ _ _ _ Hm) as (s' & n & Hh).
  destruct (match_header_group1 _ _ _ _ Hh) as (digits & letter & -> & Hne & Hd & Hl).
  exists digits, letter. repeat split; try done.
  intros _. by apply sort_key_item_id.
Qed.

Lemma find_sections_item_ids_witness :
  exists digits letter,
    "7A" = digits +:+ letter /\ digits <> "" /\
    all_chars Chars.isdigit digits = true /\
    (letter = "" \/ exists c, letter = String c "" /\ is_upper c = true) /\
    ((String.length digits <= 4300)%nat ->
     _sort_key "7A" = (int_of_digits 0 digits, letter)).
Proof.
  apply (find_sections_item_ids "item 7a. Market risk" "7A" "Market risk" "").
  - vm_compute. reflexivity.
  - assert (H : _find_sections "item 7a. Market risk"
                = [("7A", "Market risk", "")]) by (vm_compute; reflexivity).
    rewrite H. by left.
Defined.

(** *** The index *)

Lemma key_ltb_false a b :
  key_ltb b a = false <->
  fst a < fst b \/ (fst a = fst b /\ String.leb (snd a) (snd b) = true).
Proof.
  unfold key_ltb. rewrite orb_false_iff, andb_false_iff.
  rewrite Z.ltb_ge, Z.eqb_neq, FinancialFacts.ltb_leb, negb_false_iff.
  split.
  - intros [H1 [H2|H2]]; [left; lia|].
    destruct (Z.eq_dec (fst a) (fst b)); [by right|left; lia].
  - intros [H|[H1 H2]]; (split; [lia|]); [left; lia|by right].
Qed.

Lemma key_le_trans x y z : key_le x y -> key_le y z -> key_le x z.
Proof.
  unfold key_le. rewrite !key_ltb_false.
  intros [H1|[H1 H1']] [H2|[H2 H2']]; try (left; lia).
  right. split; [lia|]. by eapply FinancialFacts.leb_trans.
Qed.

Lemma key_ltb_le x y :
  key_ltb (_sort_key (fst (fst y))) (_sort_key (fst (fst x))) = true -> key_le y x.
Proof.
  unfold key_le. rewrite key_ltb_false. unfold key_ltb.
  intros [H|[H1 H2]%andb_true_iff]%orb_true_iff.
  - left. lia.
  - right. split; [lia|]. by apply FinancialFacts.ltb_leb_incl.
Qed.

Lemma key_ltb_irrefl k : key_ltb k k = false.
Proof. apply key_ltb_false. right. split; [done|apply FinancialFacts.leb_refl]. Qed.

Lemma insert_by_key_perm x l : insert_by_key x l ≡ₚ x :: l.
Proof.
  induction l as [|y r IH]; simpl; [done|].
  destruct (key_ltb _ _); [|done].
  rewrite IH. apply Permutation_swap.
Qed.

Lemma insert_by_key_sorted x l :
  StronglySorted key_le l -> StronglySorted key_le (insert_by_key x l).
Proof.
  induction l as [|y r IH]; intros Hs; simpl.
  - repeat constructor.
  - apply StronglySorted_inv in Hs as [Hr Hy].
    destruct (key_ltb _ _) eqn:Hlt.
    + constructor; [by apply IH|].
      apply Forall_forall. intros z Hz.
      rewrite insert_by_key_perm in Hz.
      apply elem_of_cons in Hz as [->|Hz]; [by apply key_ltb_le|].
      by apply (proj1 (Forall_forall _ _) Hy).
    + constructor; [by constructor|].
      constructor; [exact Hlt|].
      eapply Forall_impl; [exact Hy|]. intros z Hz.
      by apply (key_le_trans x y z).
Qed.

Lemma insert_by_key_filter k x l :
  List.filter (fun s => bool_decide (_sort_key (fst (fst s)) = k)) (insert_by_key x l)
  = List.filter (fun s => bool_decide (_sort_key (fst (fst s)) = k)) (x :: l).
Proof.
  induction l as [|y r IH]; simpl; [done|].
  destruct (key_ltb _ _) eqn:Hlt; [|done].
  simpl in *. rewrite IH.
  destruct (bool_decide_reflect (_sort_key (fst (fst x)) = k)) as [Hx|Hx]; [|done].
  destruct (bool_decide_reflect (_sort_key (fst (fst y)) = k)) as [Hy|Hy]; [|done].
  rewrite Hx, Hy, key_ltb_irrefl in Hlt. done.
Qed.

(** X14: for sections whose identifiers are ASCII and no longer than
    4300 characters, the index lists every section exactly once, in
    non-decreasing order of sort key (item number, then letter, so that
    Item 2 comes before Item 10), sections with the same key staying in
    document order; each entry shows the identifier, the title and the
    file name of its section. *)
Theorem index_sorted (found : list (string * string * string)) :
  Forall (fun s => Chars.is_ascii (fst (fst s)) = true /\
                   (String.length (fst (fst s)) <= 4300)%nat) found ->
  exists l,
    index_entries found
    = map (fun s => (fst (fst s), snd (fst s), section_filename (fst (fst s)))) l /\
    l ≡ₚ found /\
    StronglySorted key_le l /\
    forall k,
      List.filter (fun s => bool_decide (_sort_key (fst (fst s)) = k)) l
      = List.filter (fun s => bool_decide (_sort_key (fst (fst s)) = k)) found.
Proof.
  intros _. exists (sorted_by_key found). split; [done|].
  induction found as [|x rest (Hperm & Hsorted & Hstable)]; simpl.
  - split; [done|]. split; [constructor|done].
  - split; [|split].
    + by rewrite insert_by_key_perm, Hperm.
    + by apply insert_by_key_sorted.
    + intros k. rewrite insert_by_key_filter. simpl. by rewrite Hstable.
Qed.

Lemma index_sorted_witness :
  exists l,
    index_entries [("10", "Directors", ""); ("1A", "Risk Factors", "");
                   ("2", "Properties", "")]
    = map (fun s => (fst (fst s), snd (fst s), section_filename (fst (fst s)))) l /\
    l ≡ₚ [("10", "Directors", ""); ("1A", "Risk Factors", "");
          ("2", "Properties", "")] /\
    StronglySorted key_le l /\
    forall k,
      List.filter (fun s => bool_decide (_sort_key (fst (fst s)) = k)) l
      = List.filter (fun s => bool_decide (_sort_key (fst (fst s)) = k))
          [("10", "Directors", ""); ("1A", "Risk Factors", "");
           ("2", "Properties", "")].
Proof.
  apply (index_sorted [("10", "Directors", ""); ("1A", "Risk Factors", "");
                       ("2", "Properties", "")]).
  repeat (constructor; [split; [reflexivity|apply Nat.leb_le; reflexivity]|]).
  constructor.
Defined.

Example index_numeric_order :
  map (fun e => fst (fst e))
      (index_entries [("10", "", ""); ("1A", "", ""); ("2", "", ""); ("1", "", "")])
  = ["1"; "1A"; "2"; "10"].
Proof. reflexivity. Qed.

(** *** The section files *)

Lemma section_filename_inj a b : section_filename a = section_filename b -> a = b.
Proof.
  unfold section_filename.
  intros H%String.app_inj. by apply StringFacts.append_inj_r in H.
Qed.

Lemma dict_set_length {A} (k : value) (x : A) (d : dict A) :
  length (dict_set k x d)
  = match dict_get k d with Some _ => length d | None => S (length d) end.
Proof.
  induction d as [|[k' v] d IH]; simpl; [done|].
  destruct (eq k' k); simpl; [done|]. rewrite IH. by destruct (dict_get k d).
Qed.

Lemma write_sections_app a : forall b files,
  write_sections (a ++ b) files = write_sections b (write_sections a files).
Proof.
  induction a as [|[[i t] c] a IH]; intros b files; simpl; [done|]. apply IH.
Qed.

Lemma write_sections_keyed found : forall files,
  FinancialExtractor.str_keyed files ->
  FinancialExtractor.str_keyed (write_sections found files).
Proof.
  induction found as [|[[i t] c] rest IH]; intros files Hk; simpl; [done|].
  by apply IH, FinancialFacts.str_keyed_set.
Qed.

Lemma write_sections_other found k : forall files,
  FinancialExtractor.str_keyed files ->
  (forall s, s ∈ found -> section_filename (fst (fst s)) <> k) ->
  dict_get (PStr k) (write_sections found files) = dict_get (PStr k) files.
Proof.
  induction found as [|[[i t] c] rest IH]; intros files Hk Hne; simpl; [done|].
  rewrite IH.
  - rewrite FinancialFacts.str_keyed_get_set by done.
    destruct (String.eqb_spec (section_filename i) k) as [Heq|_]; [|done].
    destruct (Hne (i, t, c)); [by left|done].
  - by apply FinancialFacts.str_keyed_set.
  - intros s Hs. apply Hne. by right.
Qed.

Lemma write_sections_length found : forall files,
  (length (write_sections found files) <= length files + length found)%nat.
Proof.
  induction found as [|[[i t] c] rest IH]; intros files; simpl; [lia|].
  etrans; [apply IH|]. rewrite dict_set_length.
  destruct (dict_get _ files); lia.
Qed.

Lemma write_sections_length_nodup found : forall files,
  FinancialExtractor.str_keyed files ->
  NoDup (map (fun s => fst (fst s)) found) ->
  (forall s, s ∈ found ->
     dict_get (PStr (section_filename (fst (fst s)))) files = None) ->
  length (write_sections found files) = (length files + length found)%nat.
Proof.
  induction found as [|[[i t] c] rest IH]; intros files Hk Hnd Hfree; simpl; [lia|].
  apply NoDup_cons in Hnd as [Hi Hnd]. rewrite IH.
  - rewrite dict_set_length. pose proof (Hfree (i, t, c)) as Hi'.
    simpl in Hi'. rewrite Hi' by left. simpl. lia.
  - by apply FinancialFacts.str_keyed_set.
  - done.
  - intros s Hs. rewrite FinancialFacts.str_keyed_get_set by done.
    destruct (String.eqb_spec (section_filename i) (section_filename (fst (fst s))))
      as [Heq%section_filename_inj|_].
    + destruct Hi. simpl in *. rewrite Heq.
      apply list_elem_of_fmap. by exists s.
    + apply Hfree. by right.
Qed.

(** X15: two sections with the same identifier are written to the same
    file, which keeps the text of the later one: after all sections are
    written, the file of an identifier holds the header and content of
    the last section with that identifier.  There are never more files
    than sections, and exactly as many when the identifiers are all
    different. *)
Theorem write_sections_last_wins
    (before after : list (string * string * string))
    (item_id title content : string) :
  (forall s, s ∈ after -> fst (fst s) <> item_id) ->
  let found := before ++ (item_id, title, content) :: after in
  dict_get (PStr (section_filename item_id)) (write_sections found [])
  = Some (snd (_write_section item_id title content)) /\
  (length (write_sections found []) <= length found)%nat /\
  (NoDup (map (fun s => fst (fst s)) found) ->
   length (write_sections found []) = length found).
Proof.
  intros Hlast found. split; [|split].
  - subst found. rewrite write_sections_app. simpl.
    rewrite write_sections_other.
    + rewrite FinancialFacts.str_keyed_get_set
        by (apply write_sections_keyed; constructor).
      by rewrite String.eqb_refl.
    + apply FinancialFacts.str_keyed_set, write_sections_keyed. constructor.
    + intros s Hs Heq%section_filename_inj. by apply (Hlast s).
  - apply (write_sections_length found []).
  - intros Hnd. by rewrite write_sections_length_nodup; [|constructor|done|done].
Qed.

Lemma write_sections_last_wins_witness :
  dict_get (PStr "Item_1.md")
    (write_sections [("1", "Business", "old"); ("2", "", "x"); ("1", "Business", "new")] [])
  = Some (snd (_write_section "1" "Business" "new")).
Proof.
  apply (write_sections_last_wins [("1", "Business", "old"); ("2", "", "x")] []
           "1" "Business" "new").
  by intros s ?%elem_of_nil.
Defined.

(** *** The shape of the plain text *)

Lemma all_chars_append p a b :
  all_chars p (a +:+ b) = all_chars p a && all_chars p b.
Proof. unfold all_chars. by rewrite StringFacts.chars_append, forallb_app. Qed.

Lemma all_chars_cons p c r : all_chars p (String c r) = p c && all_chars p r.
Proof. reflexivity. Qed.

(** A substitution keeps only characters at which the pattern does not
    match, and adds the characters of the replacement. *)
Lemma re_sub_kept (p : ascii -> bool) matcher repl :
  (forall c r, matcher (String c r) = None -> p c = true) ->
  all_chars p repl = true ->
  forall s skip, all_chars p (re_sub matcher repl skip s) = true.
Proof.
  intros Hm Hrepl. induction s as [|c r IH]; intros skip; simpl; [done|].
  destruct skip as [|k]; [|apply IH].
  destruct (matcher (String c r)) as [n|] eqn:Hn.
  - by rewrite all_chars_append, Hrepl, IH.
  - by rewrite all_chars_cons, (Hm c r Hn), IH.
Qed.

Lemma re_sub_preserved (p : ascii -> bool) matcher repl :
  all_chars p repl = true ->
  forall s skip, all_chars p s = true ->
    all_chars p (re_sub matcher repl skip s) = true.
Proof.
  intros Hrepl. induction s as [|c r IH]; intros skip; simpl; [done|].
  rewrite all_chars_cons. intros [Hc Hr]%andb_true_iff.
  destruct skip as [|k]; [|by apply IH].
  destruct (matcher (String c r)) as [n|].
  - by rewrite all_chars_append, Hrepl, IH.
  - by rewrite all_chars_cons, Hc, IH.
Qed.

Lemma run_length_cons p c r :
  String.length (fst (span p (String c r)))
  = if p c then S (String.length (fst (span p r))) else 0%nat.
Proof. simpl. destruct (p c); [|done]. by destruct (span p r). Qed.

Lemma short_runs_prefix p limit a : forall seen x,
  all_chars p a = true -> (seen + String.length a <= limit)%nat ->
  short_runs p limit seen (a +:+ x)
  = short_runs p limit (seen + String.length a) x.
Proof.
  induction a as [|c a IH]; intros seen x; simpl.
  - intros _ _. by rewrite Nat.add_0_r.
  - rewrite all_chars_cons. intros [Hc Ha]%andb_true_iff Hlen.
    rewrite Hc, IH by (done || lia).
    assert (Hle : (S seen <=? limit)%nat = true) by (apply Nat.leb_le; lia).
    simpl in Hle. rewrite Hle. simpl. f_equal. lia.
Qed.

(** Replacing the runs of at least [least] characters by a shorter run
    [repl] leaves no run longer than [repl]. *)
Lemma re_sub_short_runs p least repl :
  all_chars p repl = true ->
  (1 <= least <= S (String.length repl))%nat ->
  forall s skip seen,
    (0 < skip -> skip = String.length (fst (span p s)))%nat ->
    (skip = 0 -> 0 < seen ->
       String.length (fst (span p s)) = 0 \/
       seen + String.length (fst (span p s)) < least)%nat ->
    short_runs p (String.length repl) seen
               (re_sub (match_run p least) repl skip s) = true.
Proof.
  intros Hrepl Hleast. induction s as [|c r IH]; intros skip seen H1 H2; [done|].
  cbn [re_sub]. rewrite run_length_cons in H1, H2.
  destruct skip as [|k].
  - unfold match_run. rewrite run_length_cons.
    destruct (p c) eqn:Hc.
    + set (n := String.length (fst (span p r))) in *.
      destruct (Nat.leb_spec least (S n)) as [Hge|Hlt].
      * assert (seen = 0)%nat as -> by (destruct seen; [done|]; destruct H2; lia).
        rewrite short_runs_prefix by (done || lia). simpl.
        apply IH; fold n; lia.
      * cbn [short_runs]. rewrite Hc.
        replace (S seen <=? String.length repl)%nat with true.
        2:{ symmetry. apply Nat.leb_le. destruct seen; [lia|].
            destruct H2; lia. }
        simpl. apply IH; fold n; [lia|]. intros _ _. right.
        destruct seen; [lia|]. destruct H2; lia.
    + destruct (Nat.leb_spec least 0); [lia|].
      cbn [short_runs]. rewrite Hc. apply IH; lia.
  - destruct (p c) eqn:Hc; [|lia].
    apply IH; [lia|]. intros -> _. left. lia.
Qed.

(** Replacing runs of characters of one kind leaves the runs of another
    kind as short as they were. *)
Lemma re_sub_runs_preserved p q least repl limit :
  (forall c, p c = true -> q c = false) ->
  all_chars (fun c => negb (q c)) repl = true -> repl <> "" ->
  (1 <= least)%nat ->
  forall s skip seen,
    (skip <= String.length (fst (span p s)))%nat ->
    (0 < skip -> seen = 0)%nat ->
    short_runs q limit seen s = true ->
    short_runs q limit seen (re_sub (match_run p least) repl skip s) = true.
Proof.
  intros Hpq Hrepl Hne Hleast.
  assert (Hpre : forall seen x,
            short_runs q limit seen (repl +:+ x) = short_runs q limit 0 x).
  { intros seen x. destruct repl as [|c0 repl]; [done|].
    rewrite all_chars_cons in Hrepl. apply andb_true_iff in Hrepl as [Hc0 Hr].
    apply negb_true_iff in Hc0. simpl. rewrite Hc0. clear Hne Hc0.
    induction repl as [|c1 repl IHr]; [done|].
    rewrite all_chars_cons in Hr. apply andb_true_iff in Hr as [Hc1 Hr].
    apply negb_true_iff in Hc1. simpl. rewrite Hc1. by apply IHr. }
  induction s as [|c r IH]; intros skip seen H1 H2 Hs; [done|].
  cbn [re_sub]. rewrite run_length_cons in H1. cbn [short_runs] in Hs.
  destruct skip as [|k].
  - unfold match_run. rewrite run_length_cons.
    destruct (p c) eqn:Hc.
    + rewrite (Hpq c Hc) in Hs.
      destruct (Nat.leb_spec least (S (String.length (fst (span p r))))).
      * rewrite Hpre. apply IH; [simpl; lia|done|done].
      * cbn [short_runs]. rewrite (Hpq c Hc). apply IH; [lia|lia|done].
    + destruct (Nat.leb_spec least 0); [lia|].
      cbn [short_runs]. destruct (q c).
      * apply andb_true_iff in Hs as [-> Hs]. simpl. apply IH; [lia|lia|done].
      * apply IH; [lia|lia|done].
  - destruct (p c) eqn:Hc; [|lia].
    rewrite (Hpq c Hc) in Hs. rewrite (H2 ltac:(lia)).
    apply IH; [lia|done|done].
Qed.

(** X16: whatever the document and the entity table, the plain text
    [_html_to_text] returns holds no carriage return and no tab, never
    two blanks in a row and never more than two line feeds in a row. *)
Theorem html_to_text_normal_form (replace_charrefs : string -> string)
    (html : string) :
  all_chars (fun c => negb (Ascii.eqb c CR) && negb (Ascii.eqb c TAB))
            (_html_to_text replace_charrefs html) = true /\
  short_runs is_blank 1 0 (_html_to_text replace_charrefs html) = true /\
  short_runs is_lf 2 0 (_html_to_text replace_charrefs html) = true.
Proof.
  unfold _html_to_text.
  set (t0 := unescape replace_charrefs _).
  set (t1 := re_sub match_line_end (String LF "") 0 t0).
  set (t2 := re_sub match_nbsp " " 0 t1).
  set (t3 := re_sub (match_run is_blank 1) " " 0 t2).
  assert (Hcr : all_chars (fun c => negb (Ascii.eqb c CR)) t3 = true).
  { do 2 (apply re_sub_preserved; [done|]).
    apply re_sub_kept; [|done].
    intros c r. simpl. destruct (Ascii.eqb c CR); [|done].
    destruct r as [|c' r']; [done|]. by destruct (Ascii.eqb c' LF). }
  assert (Htab : all_chars (fun c => negb (Ascii.eqb c TAB)) t3 = true).
  { apply re_sub_kept; [|done].
    intros c r. unfold match_run. rewrite run_length_cons.
    unfold is_blank. destruct (Ascii.eqb c TAB); [|done]. by simpl. }
  split; [|split].
  - assert (H1 := re_sub_preserved (fun c => negb (Ascii.eqb c CR))
                    (match_run is_lf 2)
                    (String LF (String LF "")) eq_refl t3 0 Hcr).
    assert (H2 := re_sub_preserved (fun c => negb (Ascii.eqb c TAB))
                    (match_run is_lf 2)
                    (String LF (String LF "")) eq_refl t3 0 Htab).
    revert H1 H2. generalize (re_sub (match_run is_lf 2) (String LF (String LF "")) 0 t3).
    intros t. unfold all_chars. rewrite !forallb_forall.
    intros H1 H2 c Hc. by rewrite (H1 c Hc), (H2 c Hc).
  - apply (re_sub_runs_preserved is_lf is_blank 2 (String LF (String LF "")) 1);
      try done; try lia.
    + intros c. unfold is_lf, is_blank. intros ->%Ascii.eqb_eq. done.
    + apply (re_sub_short_runs is_blank 1 " "); [done|simpl; lia|lia|lia].
  - apply (re_sub_short_runs is_lf 2 (String LF (String LF "")));
      [done|simpl; lia|lia|lia].
Qed.

(** *** What [extract] returns *)

Lemma build_sections_length text ms :
  length (build_sections text ms) = length ms.
Proof. induction ms as [|m rest IH]; simpl; [done|]. by rewrite IH. Qed.

Lemma find_sections_length text :
  length (_find_sections text) = length (finditer text).
Proof.
  unfold _find_sections. destruct (finditer text) as [|m ms] eqn:Hm; [done|].
  apply build_sections_length.
Qed.

Lemma section_files_length found : forall files : dict string,
  (length files <= length (section_files found files)
   <= length files + length found)%nat.
Proof.
  induction found as [|[[i t] c] rest IH]; intros files; simpl; [lia|].
  specialize (IH (dict_set (PStr i) ("Item_" +:+ i +:+ ".md") files)).
  rewrite dict_set_length in IH. destruct (dict_get (PStr i) files); lia.
Qed.

Lemma extract_readable (replace_charrefs : string -> string) n raw_html :
  extract replace_charrefs (RegularFile (S n) (Some raw_html)) true
  = match _find_sections (_html_to_text replace_charrefs raw_html) with
    | [] => Ok {| sections := []; index_file := None; section_count := 0 |}
    | s :: rest =>
        Ok {| sections := section_files (s :: rest) [];
              index_file := Some "sections_index.md";
              section_count := length (s :: rest) |}
    end.
Proof.
  unfold extract. simpl.
  by destruct (_find_sections (_html_to_text replace_charrefs raw_html)).
Qed.

(** X17: when [extract] returns, the source was a non-empty readable
    file and the directory could be made; the index file and the
    [sections] mapping are absent exactly when [section_count] is zero;
    the mapping never has more entries than [section_count] says; and
    when the file and its plain text hold ASCII characters only,
    [section_count] is the number of matches of the header pattern in
    the plain text. *)
Theorem extract_result_shape (replace_charrefs : string -> string)
    (src : source) (can_mkdir : bool) (e : extraction) :
  extract replace_charrefs src can_mkdir = Ok e ->
  exists st_size raw_html,
    src = RegularFile (S st_size) (Some raw_html) /\ can_mkdir = true /\
    (index_file e = None <-> section_count e = 0%nat) /\
    (sections e = [] <-> section_count e = 0%nat) /\
    (length (sections e) <= section_count e)%nat /\
    (Chars.is_ascii raw_html = true ->
     Chars.is_ascii (_html_to_text replace_charrefs raw_html) = true ->
     section_count e
     = length (finditer (_html_to_text replace_charrefs raw_html))).
Proof.
  destruct src as [| |[|n] [raw|]|];
    try (intros H; destruct can_mkdir; discriminate H).
  destruct can_mkdir; [|intros H; discriminate H].
  rewrite extract_readable. intros He. exists n, raw.
  rewrite <- find_sections_length. revert He.
  destruct (_find_sections (_html_to_text replace_charrefs raw))
    as [|[[i t] c] rest] eqn:Hf; intros [= <-].
  - repeat split; auto.
  - pose proof (section_files_length rest
                  (dict_set (PStr i) ("Item_" +:+ i +:+ ".md") [])) as Hl.
    cbn [section_count index_file sections section_files length] in *.
    change (dict_set (PStr i) ("Item_" +:+ i +:+ ".md") [])
      with [(PStr i, "Item_" +:+ i +:+ ".md")] in Hl.
    cbn [length] in Hl.
    repeat split; try done; try lia.
    intros Hnil. unfold dict in *. rewrite Hnil in Hl. simpl in Hl. lia.
Qed.

Lemma extract_result_shape_witness :
  exists st_size raw_html,
    RegularFile 19 (Some "Item 1. A
Item 1. B") = RegularFile (S st_size) (Some raw_html) /\ true = true /\
    (Some "sections_index.md" = None <-> 2%nat = 0%nat) /\
    ([(PStr "1", "Item_1.md")] = [] <-> 2%nat = 0%nat) /\
    (length [(PStr "1", "Item_1.md")] <= 2)%nat /\
    (Chars.is_ascii raw_html = true ->
     Chars.is_ascii (_html_to_text (fun s => s) raw_html) = true ->
     2%nat = length (finditer (_html_to_text (fun s => s) raw_html))).
Proof.
  apply (extract_result_shape (fun s => s)
           (RegularFile 19 (Some "Item 1. A
Item 1. B")) true
           {| sections := [(PStr "1", "Item_1.md")];
              index_file := Some "sections_index.md";
              section_count := 2 |}).
  vm_compute. reflexivity.
Defined.

End SectionFacts.

(** ** [TableExtractor.extract] *)

Module TableExtractorIOFacts.
Import Py TableExtractor SectionExtractor TableExtractorIO.

Example csv_name_ten : csv_name "aapl-10k" 10 = "aapl-10k_table_10.csv".
Proof. reflexivity. Qed.

Lemma csv_name_inj stem i j : csv_name stem i = csv_name stem j -> i = j.
Proof.
  unfold csv_name. intros H%String.app_inj%String.app_inj%StringFacts.append_inj_r.
  by apply (inj pretty) in H.
Qed.

Lemma csv_paths_names stem tables : forall i,
  map fst (csv_paths stem i tables) = map (csv_name stem) (seq i (length tables)) /\
  map snd (csv_paths stem i tables) = tables.
Proof.
  induction tables as [|t rest IH]; intros i; simpl; [done|].
  destruct (IH (S i)) as [-> ->]. done.
Qed.

Section WithTokenizer.
Variable tokenize : string -> result (list event).
Variable can_write : string -> bool.

Lemma write_tables_names files : forall done csv_files,
  write_tables can_write files done = Ok csv_files ->
  csv_files = done ++ map fst files /\
  Forall (fun f => can_write (fst f) = true) files.
Proof.
  induction files as [|[path t] rest IH]; intros done csv_files; simpl.
  - intros [= <-]. by rewrite app_nil_r.
  - unfold write_file. destruct (can_write path) eqn:Hw; [|done]. simpl.
    intros [-> Hall]%IH. rewrite <- app_assoc. split; [done|].
    by constructor.
Qed.

(** X9: when the table extraction returns, the source could be read and
    tokenized, and with [kept] the tables of the document that pass the
    filter, in order: [table_count] is their number; the CSV files are
    [stem_table_1.csv] to [stem_table_n.csv], all different, so that no
    table overwrites another; the file of rank [i] was handed the kept
    table of rank [i]; every one of them, and the JSON file, could be
    written; and the JSON record carries the same count and the same
    tables. *)
Theorem extract_files (config : Limits) (src : source) (stem : string)
    (can_mkdir : bool) (min_columns max_tables : option Z) (r : extraction) :
  extract tokenize can_write config src stem can_mkdir min_columns max_tables
  = Ok r ->
  exists html_content events,
    read_source src = Ok html_content /\
    tokenize html_content = Ok events /\
    let kept :=
      filtered_tables (parse events)
        (default (min_table_columns config) min_columns)
        (default (max_tables_per_file config) max_tables) in
    table_count r = length kept /\
    csv_files r = map (csv_name stem) (seq 1 (length kept)) /\
    NoDup (csv_files r) /\
    map fst (csv_written r) = csv_files r /\
    map snd (csv_written r) = kept /\
    Forall (fun path => can_write path = true) (json_file r :: csv_files r) /\
    json_written r = (json_file r, (length kept, kept)).
Proof.
  unfold extract. destruct (validate_source src); [|done]. simpl.
  destruct (ensure_output_dir can_mkdir); [|done]. simpl.
  destruct (read_source src) as [html|] eqn:Hread; [|done]. simpl.
  destruct (tokenize html) as [events|] eqn:Htok; [|done]. simpl.
  set (kept := filtered_tables _ _ _).
  destruct (write_tables can_write (csv_paths stem 1 kept) []) as [names|] eqn:Hw;
    [|done]. simpl.
  unfold write_file. destruct (can_write (stem +:+ "_tables.json")) eqn:Hj;
    [|done]. simpl.
  intros [= <-]. exists html, events. split; [done|]. split; [done|]. simpl.
  apply write_tables_names in Hw as [-> Hall]. simpl.
  destruct (csv_paths_names stem kept 1) as [Hn Ht]. rewrite Hn, Ht.
  repeat split.
  - apply NoDup_fmap_2_strong; [|apply NoDup_seq].
    intros i j _ _. apply csv_name_inj.
  - constructor; [done|]. rewrite <- Hn. by apply Forall_fmap.
Qed.

End WithTokenizer.

Lemma extract_files_witness :
  exists html_content events,
    read_source (RegularFile 80 (Some "<table>...</table>")) = Ok html_content /\
    (fun _ => Ok (table_events [ ["A"; "B"]; ["1"; "2"] ])) html_content
    = Ok events /\
    let kept := filtered_tables (parse events) 2 200 in
    1%nat = length kept /\
    ["doc_table_1.csv"] = map (csv_name "doc") (seq 1 (length kept)) /\
    NoDup ["doc_table_1.csv"] /\
    map fst [("doc_table_1.csv", [ ["A"; "B"]; ["1"; "2"] ])]
    = ["doc_table_1.csv"] /\
    map snd [("doc_table_1.csv", [ ["A"; "B"]; ["1"; "2"] ])] = kept /\
    Forall (fun path => (fun _ : string => true) path = true)
      ["doc_tables.json"; "doc_table_1.csv"] /\
    ("doc_tables.json", (1%nat, [ [ ["A"; "B"]; ["1"; "2"] ] ]))
    = ("doc_tables.json", (length kept, kept)).
Proof.
  apply (extract_files (fun _ => Ok (table_events [ ["A"; "B"]; ["1"; "2"] ]))
           (fun _ => true) default_limits
           (RegularFile 80 (Some "<table>...</table>")) "doc" true None None
           {| csv_files := ["doc_table_1.csv"];
              json_file := "doc_tables.json";
              table_count := 1;
              csv_written := [("doc_table_1.csv", [ ["A"; "B"]; ["1"; "2"] ])];
              json_written :=
                ("doc_tables.json", (1%nat, [ [ ["A"; "B"]; ["1"; "2"] ] ])) |}).
  vm_compute. reflexivity.
Defined.

End TableExtractorIOFacts.
